(** * optimake.convert: archive-to-JSONL conversion pipeline

    A shallow embedding of [src/optimake/convert.py] and a verification of
    the properties its specification states about file matching, identifier
    derivation, property assignment and serialisation.

    Python objects are embedded as follows.
    - [dict]: an association list in insertion order ([dict_set] updates an
      existing key in place and appends a new one, as Python does).
    - exceptions and [warnings.warn]: a writer-plus-error monad [M]; the log
      records the warnings issued and the plug-in calls made, the result is
      either the raised exception or the returned value.
    - plug-ins that live outside this module ([ENTRY_PARSERS],
      [PROPERTY_PARSERS], [OPTIMADE_CONVERTERS], [TYPE_MAP], the JSON
      encoders) and the file system ([glob], [exists], [relative_to]) are
      section variables. *)

From Stdlib Require Import String Ascii List Bool Arith ZArith QArith Lia.
From Stdlib Require Import DecimalString.
From Stdlib Require DecimalNat.
Import ListNotations.
Close Scope Q_scope.
Open Scope string_scope.
Open Scope list_scope.

Set Implicit Arguments.

(** ** Exceptions *)

(** The place an exception of this module is raised from; it stands for the
    formatted message. *)
Inductive site : Type :=
| WildcardNoMatch (pattern : string)
| MissingFiles
| ArchiveMissing
| NoEntriesParsed
| NoParserSucceeded
| NoPropertyParserSucceeded
| NoPropertiesParsed
| ParsingUnsupported (entry_type : string)
| ConvertingUnsupported (entry_type : string)
| NoConverterSucceeded
| DuplicateEntryId (entry_id : string)
| NotOverwriting.

Inductive exn : Type :=
| FileNotFoundError (s : site)
| RuntimeError (s : site)
| KeyError (key : string)
| ValueError (msg : string)
| TypeError (msg : string)
| OSError (msg : string)
| PluginError (msg : string).

(** ** The writer-plus-error monad *)

Definition M (W A : Type) : Type := (list W * (exn + A))%type.

Definition ret {W A} (a : A) : M W A := ([], inr a).
Definition raise {W A} (e : exn) : M W A := ([], inl e).
Definition tell {W} (w : W) : M W unit := ([w], inr tt).

Definition bind {W A B} (m : M W A) (f : A -> M W B) : M W B :=
  match m with
  | (l, inl e) => (l, inl e)
  | (l, inr a) => let (l', r) := f a in (l ++ l', r)
  end.

Notation "x <- m ;; k" := (bind m (fun x => k))
  (at level 61, m at next level, right associativity).
Notation "m ;;; k" := (bind m (fun _ => k))
  (at level 61, right associativity).

Definition log {W A} (m : M W A) : list W := fst m.
Definition outcome {W A} (m : M W A) : exn + A := snd m.

(** ** Python values *)

Inductive pyval : Type :=
| VNone
| VBool (b : bool)
| VInt (z : Z)
| VFloat (q : Q)      (* a finite float, given by the rational it denotes *)
| VStr (s : string).

(** [bool(v)] *)
Definition truthy (v : pyval) : bool :=
  match v with
  | VNone => false
  | VBool b => b
  | VInt z => negb (Z.eqb z 0)
  | VFloat q => negb (Z.eqb (Qnum q) 0)
  | VStr s => negb (String.eqb s "")
  end.

(** [a or b] *)
Definition py_or (a b : pyval) : pyval := if truthy a then a else b.

Definition is_None (v : pyval) : bool :=
  match v with VNone => true | _ => false end.

Definition numeric (v : pyval) : option Q :=
  match v with
  | VBool b => Some (if b then 1%Q else 0%Q)
  | VInt z => Some (inject_Z z)
  | VFloat q => Some q
  | _ => None
  end.

(** [a == b], the equality a [dict] compares keys with: numbers compare by
    value across [bool], [int] and [float]. *)
Definition py_eqb (a b : pyval) : bool :=
  match a, b with
  | VNone, VNone => true
  | VStr s, VStr t => String.eqb s t
  | _, _ =>
      match numeric a, numeric b with
      | Some x, Some y => Qeq_bool x y
      | _, _ => false
      end
  end.

(** ** Dictionaries *)

Section Dict.
Variables K V : Type.
Variable eqb : K -> K -> bool.

Definition dict : Type := list (K * V).

Fixpoint dict_get (d : dict) (k : K) : option V :=
  match d with
  | [] => None
  | (k', v) :: d' => if eqb k' k then Some v else dict_get d' k
  end.

Definition dict_mem (d : dict) (k : K) : bool :=
  match dict_get d k with Some _ => true | None => false end.

(** [d[k] = v] *)
Fixpoint dict_set (d : dict) (k : K) (v : V) : dict :=
  match d with
  | [] => [(k, v)]
  | (k', v') :: d' =>
      if eqb k' k then (k', v) :: d' else (k', v') :: dict_set d' k v
  end.

Definition dict_keys (d : dict) : list K := map fst d.
Definition dict_values (d : dict) : list V := map snd d.

(** [d.update(e)] *)
Definition dict_update (d e : dict) : dict :=
  fold_left (fun acc kv => dict_set acc (fst kv) (snd kv)) e d.
End Dict.

Arguments dict_get {K V} eqb d k.
Arguments dict_mem {K V} eqb d k.
Arguments dict_set {K V} eqb d k v.
Arguments dict_keys {K V} d.
Arguments dict_values {K V} d.
Arguments dict_update {K V} eqb d e.

Definition opt_eqb (a b : option string) : bool :=
  match a, b with
  | None, None => true
  | Some s, Some t => String.eqb s t
  | _, _ => false
  end.

(** ** Strings *)

(** ["*" in m] *)
Fixpoint contains_star (m : string) : bool :=
  match m with
  | EmptyString => false
  | String c m' => if Ascii.eqb c "*" then true else contains_star m'
  end.

(** [s.split(sep)] for a one-character separator *)
Fixpoint split (sep : ascii) (s : string) : list string :=
  match s with
  | EmptyString => [EmptyString]
  | String c s' =>
      if Ascii.eqb c sep then EmptyString :: split sep s'
      else match split sep s' with
           | [] => [String c EmptyString]
           | h :: t => String c h :: t
           end
  end.

(** [id.split("/")[-1].split(".")[0]] *)
Definition filename_stem (id : string) : string :=
  hd EmptyString (split "." (last (split "/" id) EmptyString)).

(** [str(n)] for a list index *)
Definition str_of_nat (n : nat) : string :=
  NilZero.string_of_uint (Nat.to_uint n).

(** [str(archive_file)], where the sub-archive name may be [None] *)
Definition str_of_file (f : option string) : string :=
  match f with Some s => s | None => "None" end.

(** [f"_{provider_prefix}_{property}"] *)
Definition prefixed (provider_prefix property : string) : string :=
  "_" ++ provider_prefix ++ "_" ++ property.

(** Membership in a list of strings, and lists of strings used as sets. *)
Definition mem (s : string) (l : list string) : bool :=
  existsb (String.eqb s) l.

Definition set_add (s : string) (l : list string) : list string :=
  if mem s l then l else l ++ [s].

Definition set_union (l r : list string) : list string :=
  fold_left (fun acc s => set_add s acc) r l.

Definition subset (l r : list string) : bool :=
  forallb (fun s => mem s r) l.

Definition set_eqb (l r : list string) : bool :=
  subset l r && subset r l.

(** ** Configuration objects ([config.py], consumed as validated data) *)

Record PropertyDefinition : Type := {
  name : string;
  title : string;
  description : string;
  unit_ : option string;
  type : string
}.

(** [matches] is [None] or a list in the source; both [None] and the empty
    list take the same branches, so one list stands for both. *)
Record ParsedFiles : Type := {
  file : option string;
  matches : list string
}.

Record EntryConfig : Type := {
  entry_type : string;
  entry_paths : list ParsedFiles;
  property_paths : list ParsedFiles;
  property_definitions : list PropertyDefinition
}.

(** An entry as the converters hand it over: a [dict] with an ["id"], an
    ["attributes"] mapping and further keys the pipeline never touches. *)
Record Entry : Type := {
  e_id : pyval;
  e_attributes : dict string pyval;
  e_rest : dict string pyval
}.

Definition set_id (e : Entry) (i : pyval) : Entry :=
  {| e_id := i; e_attributes := e_attributes e; e_rest := e_rest e |}.

Definition set_attributes (e : Entry) (a : dict string pyval) : Entry :=
  {| e_id := e_id e; e_attributes := a; e_rest := e_rest e |}.

(** One property row, and the rows keyed by the record key found in the
    property files. *)
Definition row : Type := dict string pyval.
Definition rows : Type := dict pyval row.

Inductive warning : Type :=
| CoverageMismatch (found expected : list string)
| MissingDefinition (property : string).

(** Monadic loops. *)
Fixpoint foldM {W A B} (f : A -> B -> M W A) (a : A) (l : list B) : M W A :=
  match l with
  | [] => ret a
  | b :: l' => a' <- f a b ;; foldM f a' l'
  end.

Fixpoint mapM {W A B} (f : A -> M W B) (l : list A) : M W (list B) :=
  match l with
  | [] => ret []
  | a :: l' => b <- f a ;; bs <- mapM f l' ;; ret (b :: bs)
  end.

Definition lift {W A} (r : exn + A) : M W A := ([], r).

Section Convert.

Set Default Proof Using "Type".

(** *** The file system and the plug-ins *)

Variable Path : Type.
Variable Doc : Type.

(** [sorted(list(Path(archive_path).glob(m)))] *)
Variable glob : string -> list Path.
(** [Path(archive_path) / m] *)
Variable joinpath : string -> Path.
(** [p.exists()] *)
Variable path_exists : Path -> bool.
(** [str(Path(p).relative_to(Path(archive_path)))], or its [ValueError] *)
Variable relative_to : Path -> exn + string.
(** [p.suffix] *)
Variable suffix : Path -> string.
(** [bool(doc)] of a parsed document that is not a list *)
Variable doc_truthy : Doc -> bool.

(** What an entry parser returns: one document, or a list of them. *)
Inductive parsed : Type :=
| One (doc : Doc)
| Many (docs : list Doc).

Definition entry_parser : Type := Path -> exn + parsed.
Definition property_parser : Type :=
  Path -> list PropertyDefinition -> exn + rows.
(** A converter's outcome is the [dict] it leads to, directly or through
    [.entry.dict()], or the exception raised on the way. *)
Definition converter : Type := Doc -> list PropertyDefinition -> exn + Entry.

Variable ENTRY_PARSERS : dict string (list entry_parser).
Variable PROPERTY_PARSERS : dict string (list property_parser).
Variable OPTIMADE_CONVERTERS : dict string (list converter).
Variable TYPE_MAP : dict string (pyval -> exn + pyval).

Inductive event : Type :=
| Warn (w : warning)
| ParseEntry (p : Path)
| ParseProperty (p : Path)
| ConvertEntry (entry_id : string).

Local Abbreviation Mo := (M event).

(** *** [_get_matches] *)

Definition matches_dict : Type := dict (option string) (list Path).

(** [matches_by_file[k] += l] on a [defaultdict(list)] *)
Definition extend (d : matches_dict) (k : option string) (l : list Path)
  : matches_dict :=
  match dict_get opt_eqb d k with
  | Some old => dict_set opt_eqb d k (old ++ l)
  | None => dict_set opt_eqb d k l
  end.

Fixpoint match_patterns (f : option string) (ms : list string)
         (matches_by_file : matches_dict) : Mo matches_dict :=
  match ms with
  | [] => ret matches_by_file
  | m :: ms' =>
      if contains_star m then
        match glob m with
        | [] => raise (FileNotFoundError (WildcardNoMatch m))
        | wildcard => match_patterns f ms' (extend matches_by_file f wildcard)
        end
      else match_patterns f ms' (extend matches_by_file f [joinpath m])
  end.

Definition match_path (matches_by_file : matches_dict) (path : ParsedFiles)
  : Mo matches_dict :=
  d <- match_patterns (file path) (matches path) matches_by_file ;;
  match matches path with
  | [] =>
      match file path with
      | Some f => ret (extend d (file path) [joinpath f])
      | None => raise (TypeError "unsupported operand type(s) for /")
      end
  | _ => ret d
  end.

Definition _get_matches (paths : list ParsedFiles) : Mo matches_dict :=
  foldM match_path [] paths.

(** *** [_check_missing] *)

Definition missing_paths (matches_by_file : matches_dict) : list Path :=
  filter (fun p => negb (path_exists p)) (concat (dict_values matches_by_file)).

Definition _check_missing (matches_by_file : matches_dict) : Mo unit :=
  match missing_paths matches_by_file with
  | [] => ret tt
  | _ => raise (FileNotFoundError MissingFiles)
  end.

(** *** [_parse_entries] *)

(** [not doc] *)
Definition not_doc (doc : parsed) : bool :=
  match doc with
  | One d => negb (doc_truthy d)
  | Many [] => true
  | Many _ => false
  end.

Definition docs_of (doc : parsed) : list Doc :=
  match doc with One d => [d] | Many ds => ds end.

Definition ids_of (id_root : string) (doc : parsed) : list string :=
  match doc with
  | One _ => [id_root]
  | Many ds =>
      map (fun ind => (id_root ++ "/" ++ str_of_nat ind)%string)
          (seq 0 (length ds))
  end.

(** The [for parser in ENTRY_PARSERS[entry_type]] loop; [None] is its
    [else] branch. *)
Fixpoint try_parsers (parsers : list entry_parser) (_path : Path)
  : Mo (option parsed) :=
  match parsers with
  | [] => ret None
  | parser :: rest =>
      tell (ParseEntry _path) ;;;
      match parser _path with
      | inr doc => if not_doc doc then try_parsers rest _path
                   else ret (Some doc)
      | inl _ => try_parsers rest _path
      end
  end.

Definition id_root_of (archive_file : option string) (n_matches : nat)
           (path_in_archive : string) : string :=
  if Nat.ltb 1 n_matches
  then (str_of_file archive_file ++ "/" ++ path_in_archive)%string
  else str_of_file archive_file.

Definition parse_file (entry_type : string) (archive_file : option string)
           (n_matches : nat) (acc : list Doc * list string) (_path : Path)
  : Mo (list Doc * list string) :=
  path_in_archive <- lift (relative_to _path) ;;
  let id_root := id_root_of archive_file n_matches path_in_archive in
  parsers <- match dict_get String.eqb ENTRY_PARSERS entry_type with
             | Some ps => ret ps
             | None => raise (KeyError entry_type)
             end ;;
  r <- try_parsers parsers _path ;;
  match r with
  | Some doc => ret (fst acc ++ docs_of doc, snd acc ++ ids_of id_root doc)
  | None => raise (RuntimeError NoParserSucceeded)
  end.

Definition _parse_entries (matches_by_file : matches_dict)
           (entry_type : string) : Mo (list Doc * list string) :=
  foldM (fun acc kv =>
           foldM (parse_file entry_type (fst kv) (length (snd kv))) acc (snd kv))
        ([], []) matches_by_file.

(** *** [_parse_and_assign_properties] *)

(** [for id in properties: parsed_properties[id].update(properties[id]);
    all_property_fields |= set(properties[id].keys())], with
    [parsed_properties] a [defaultdict(dict)].  The set
    [all_property_fields] is kept as a duplicate-free list in the order
    the names were first seen. *)
Definition merge_row (st : rows * list string) (kv : pyval * row)
  : rows * list string :=
  let current := match dict_get py_eqb (fst st) (fst kv) with
                 | Some r => r
                 | None => []
                 end in
  (dict_set py_eqb (fst st) (fst kv) (dict_update String.eqb current (snd kv)),
   set_union (snd st) (dict_keys (snd kv))).

Definition merge_rows (st : rows * list string) (properties : rows)
  : rows * list string :=
  fold_left merge_row properties st.

(** The [for parser in PROPERTY_PARSERS[file_ext]] loop; [None] is its
    [else] branch. *)
Fixpoint try_property_parsers (parsers : list property_parser) (_path : Path)
         (property_definitions : list PropertyDefinition)
         (st : rows * list string) : Mo (option (rows * list string)) :=
  match parsers with
  | [] => ret None
  | parser :: rest =>
      tell (ParseProperty _path) ;;;
      match parser _path property_definitions with
      | inr properties => ret (Some (merge_rows st properties))
      | inl _ => try_property_parsers rest _path property_definitions st
      end
  end.

Definition parse_property_file (property_definitions : list PropertyDefinition)
           (st : rows * list string) (_path : Path)
  : Mo (rows * list string) :=
  let file_ext := suffix _path in
  parsers <- match dict_get String.eqb PROPERTY_PARSERS file_ext with
             | Some ps => ret ps
             | None => raise (KeyError file_ext)
             end ;;
  r <- try_property_parsers parsers _path property_definitions st ;;
  match r with
  | Some st' => ret st'
  | None => raise (RuntimeError NoPropertyParserSucceeded)
  end.

(** The first loop of [_parse_and_assign_properties]: the pair
    [(parsed_properties, all_property_fields)]. *)
Definition parse_properties (property_matches_by_file : matches_dict)
           (property_definitions : list PropertyDefinition)
  : Mo (rows * list string) :=
  foldM (fun st kv =>
           foldM (parse_property_file property_definitions) st (snd kv))
        ([], []) property_matches_by_file.

(** [{p.name: p for p in property_definitions}] *)
Definition make_property_def_dict (property_definitions : list PropertyDefinition)
  : dict string PropertyDefinition :=
  fold_left (fun d p => dict_set String.eqb d (name p) p)
            property_definitions [].

(** [parsed_properties.get(key, {}).get(property, None)] *)
Definition lookup (parsed_properties : rows) (key : pyval) (property : string)
  : pyval :=
  match dict_get py_eqb parsed_properties key with
  | Some r => match dict_get String.eqb r property with
              | Some v => v
              | None => VNone
              end
  | None => VNone
  end.

(** [parsed_properties.get(property_entry_id, {}).get(property, None)
    or parsed_properties.get(id, {}).get(property, None)] *)
Definition lookup_value (parsed_properties : rows) (property_entry_id : pyval)
           (id property : string) : pyval :=
  py_or (lookup parsed_properties property_entry_id property)
        (lookup parsed_properties (VStr id) property).

(** The key tried first: the [immutable_id] attribute, or else the
    file-name part of the entry id up to its first dot. *)
Definition property_entry_id_of (id : string) (attrs : dict string pyval)
  : pyval :=
  match dict_get String.eqb attrs "immutable_id" with
  | Some v => if is_None v then VStr (filename_stem id) else v
  | None => VStr (filename_stem id)
  end.

(** [value is not None and property_def_dict[property].type in TYPE_MAP] *)
Definition cast_value (pd : PropertyDefinition) (value : pyval)
  : exn + pyval :=
  if is_None value then inr value
  else match dict_get String.eqb TYPE_MAP (type pd) with
       | Some cast => cast value
       | None => inr value
       end.

(** The body of [for property in all_property_fields]. *)
Definition assign_property (parsed_properties : rows)
           (property_def_dict : dict string PropertyDefinition)
           (provider_prefix id : string) (property_entry_id : pyval)
           (attrs : dict string pyval) (property : string)
  : Mo (dict string pyval) :=
  let value := lookup_value parsed_properties property_entry_id id property in
  match dict_get String.eqb property_def_dict property with
  | None => tell (Warn (MissingDefinition property)) ;;; ret attrs
  | Some pd =>
      value' <- lift (cast_value pd value) ;;
      ret (dict_set String.eqb attrs (prefixed provider_prefix property) value')
  end.

(** The body of [for id in optimade_entries]. *)
Definition assign_entry (parsed_properties : rows)
           (all_property_fields : list string)
           (property_def_dict : dict string PropertyDefinition)
           (provider_prefix : string) (kv : string * Entry)
  : Mo (string * Entry) :=
  let id := fst kv in
  let property_entry_id := property_entry_id_of id (e_attributes (snd kv)) in
  attrs <- foldM (assign_property parsed_properties property_def_dict
                                  provider_prefix id property_entry_id)
                 (e_attributes (snd kv)) all_property_fields ;;
  ret (id, set_attributes (snd kv) attrs).

(** The source's [entry_type] argument only labels the progress bar and is
    left out.  The in-place updates of [optimade_entries] are returned as
    the new dictionary. *)
Definition _parse_and_assign_properties
           (optimade_entries : dict string Entry)
           (property_matches_by_file : matches_dict)
           (property_definitions : list PropertyDefinition)
           (provider_prefix : string) : Mo (dict string Entry) :=
  match property_matches_by_file with
  | [] => ret optimade_entries
  | _ =>
      st <- parse_properties property_matches_by_file property_definitions ;;
      let parsed_properties := fst st in
      let all_property_fields := snd st in
      match parsed_properties with
      | [] => raise (RuntimeError NoPropertiesParsed)
      | _ =>
          let property_def_dict :=
            make_property_def_dict property_definitions in
          let expected_property_fields := dict_keys property_def_dict in
          (if set_eqb expected_property_fields all_property_fields
           then ret tt
           else tell (Warn (CoverageMismatch all_property_fields
                                             expected_property_fields))) ;;;
          mapM (assign_entry parsed_properties all_property_fields
                             property_def_dict provider_prefix)
               optimade_entries
      end
  end.

(** *** [construct_entries] *)

(** The [for converter in OPTIMADE_CONVERTERS[entry_type]] loop. *)
Fixpoint try_converters (converters : list converter) (entry_id : string)
         (doc : Doc) (property_definitions : list PropertyDefinition)
  : Mo (option Entry) :=
  match converters with
  | [] => ret None
  | conv :: rest =>
      tell (ConvertEntry entry_id) ;;;
      match conv doc property_definitions with
      | inr entry => ret (Some entry)
      | inl _ => try_converters rest entry_id doc property_definitions
      end
  end.

(** The body of [for entry_id, entry in zip(entry_ids, parsed_entries)]. *)
Definition construct_entry (converters : list converter)
           (property_definitions : list PropertyDefinition)
           (optimade_entries : dict string Entry) (ie : string * Doc)
  : Mo (dict string Entry) :=
  let entry_id := fst ie in
  r <- try_converters converters entry_id (snd ie) property_definitions ;;
  match r with
  | None => raise (RuntimeError NoConverterSucceeded)
  | Some entry =>
      let entry := if truthy (e_id entry) then entry
                   else set_id entry (VStr entry_id) in
      if dict_mem String.eqb optimade_entries entry_id
      then raise (RuntimeError (DuplicateEntryId entry_id))
      else ret (dict_set String.eqb optimade_entries entry_id entry)
  end.

Definition construct_entries (entry_config : EntryConfig)
           (provider_prefix : string) : Mo (dict string Entry) :=
  match dict_get String.eqb ENTRY_PARSERS (entry_type entry_config) with
  | None => raise (RuntimeError (ParsingUnsupported (entry_type entry_config)))
  | Some _ =>
  match dict_get String.eqb OPTIMADE_CONVERTERS (entry_type entry_config) with
  | None =>
      raise (RuntimeError (ConvertingUnsupported (entry_type entry_config)))
  | Some converters =>
      entry_matches_by_file <- _get_matches (entry_paths entry_config) ;;
      _check_missing entry_matches_by_file ;;;
      pe <- _parse_entries entry_matches_by_file (entry_type entry_config) ;;
      let parsed_entries := fst pe in
      let entry_ids := snd pe in
      property_matches_by_file <-
        _get_matches (property_paths entry_config) ;;
      _check_missing property_matches_by_file ;;;
      optimade_entries <-
        foldM (construct_entry converters (property_definitions entry_config))
              [] (combine entry_ids parsed_entries) ;;
      _parse_and_assign_properties optimade_entries property_matches_by_file
                                   (property_definitions entry_config)
                                   provider_prefix
  end
  end.

(** *** [_construct_entry_type_info] *)

Record EntryInfo : Type := {
  formats : list string;
  info_description : string;
  properties : dict string (dict string pyval);
  output_fields_by_format : dict string (list string)
}.

Variable InfoResource : Type.
(** [retrieve_queryable_properties(ENTRY_INFO_SCHEMAS[type](),
    {"id", "type", "attributes"})], and [{}] for a type without schema *)
Variable default_properties : string -> dict string (dict string pyval).
(** the [EntryInfoResource] constructor applied to [info], which
    validates its input *)
Variable EntryInfoResource : EntryInfo -> exn + InfoResource.
(** [entry_info.json()] *)
Variable info_json : InfoResource -> string.
(** [json.dumps(entry_dict)] *)
Variable json_dumps : Entry -> exn + string.

Definition opt_str (o : option string) : pyval :=
  match o with Some s => VStr s | None => VNone end.

Definition property_info (p : PropertyDefinition) : dict string pyval :=
  [("description", VStr (description p)); ("unit", opt_str (unit_ p));
   ("type", VStr (type p)); ("title", VStr (title p))].

Definition _construct_entry_type_info (type : string)
           (properties : list PropertyDefinition) (provider_prefix : string)
  : exn + InfoResource :=
  let custom :=
    fold_left (fun d p => dict_set String.eqb d
                                   (prefixed provider_prefix (name p))
                                   (property_info p))
              properties [] in
  let props := dict_update String.eqb custom (default_properties type) in
  EntryInfoResource
    {| formats := ["json"];
       info_description := type;
       properties := props;
       output_fields_by_format := [("json", dict_keys props)] |}.

(** *** [write_optimade_jsonl] *)

Variable Path_eq_dec : forall a b : Path, {a = b} + {a <> b}.

(** [open(p, "a")]: the exception it raises when the file cannot be opened
    for appending (a missing parent directory, no permission), if any. *)
Variable open_error : Path -> option exn.

(** The files on disk and their text. *)
Definition FS : Type := Path -> option string.

(** [jsonl.write(s)] on a file opened with mode ["a"] *)
Definition fs_append (fs : FS) (p : Path) (s : string) : FS :=
  fun q => if Path_eq_dec q p
           then Some (match fs p with Some c => c ++ s | None => s end)%string
           else fs q.

Definition newline : string := String (ascii_of_nat 10) EmptyString.
Definition quote : string := String (ascii_of_nat 34) EmptyString.

(** [json.dumps({"x-optimade": {"meta": {"api_version": "1.1.0"}}})] *)
Definition header_json : string :=
  ("{" ++ quote ++ "x-optimade" ++ quote ++ ": {" ++ quote ++ "meta" ++ quote
   ++ ": {" ++ quote ++ "api_version" ++ quote ++ ": " ++ quote ++ "1.1.0"
   ++ quote ++ "}}}")%string.

Definition write_line (fs : FS) (p : Path) (s : string) : FS :=
  fs_append (fs_append fs p s) p newline.

(** [for entry_type in property_definitions] *)
Fixpoint write_infos (property_definitions : dict string (list PropertyDefinition))
         (provider_prefix : string) (p : Path) (fs : FS) : FS * (exn + unit) :=
  match property_definitions with
  | [] => (fs, inr tt)
  | (entry_type, defs) :: rest =>
      match _construct_entry_type_info entry_type defs provider_prefix with
      | inl e => (fs, inl e)
      | inr entry_info =>
          write_infos rest provider_prefix p
                      (write_line fs p (info_json entry_info))
      end
  end.

(** [{k: a[k] for k in a if not k.startswith("_ase")}] *)
Definition strip_ase (a : dict string pyval) : dict string pyval :=
  filter (fun kv => negb (String.prefix "_ase" (fst kv))) a.

(** [for entry_dict in optimade_entries[entry_type]] *)
Fixpoint write_records (entries : list Entry) (p : Path) (fs : FS)
  : FS * (exn + unit) :=
  match entries with
  | [] => (fs, inr tt)
  | entry_dict :: rest =>
      let entry_dict :=
        set_attributes entry_dict (strip_ase (e_attributes entry_dict)) in
      match json_dumps entry_dict with
      | inl e => (fs, inl e)
      | inr s => write_records rest p (write_line fs p s)
      end
  end.

(** [for entry_type in optimade_entries] *)
Fixpoint write_entries (optimade_entries : dict string (list Entry))
         (p : Path) (fs : FS) : FS * (exn + unit) :=
  match optimade_entries with
  | [] => (fs, inr tt)
  | (_, entries) :: rest =>
      match entries with
      | [] => write_entries rest p fs
      | _ =>
          match write_records entries p fs with
          | (fs', inl e) => (fs', inl e)
          | (fs', inr _) => write_entries rest p fs'
          end
      end
  end.

Definition write_optimade_jsonl
           (optimade_entries : dict string (list Entry))
           (property_definitions : dict string (list PropertyDefinition))
           (provider_prefix : string) (jsonl_path : option Path) (fs : FS)
  : FS * (exn + Path) :=
  let jsonl_path := match jsonl_path with
                    | Some p => p
                    | None => joinpath "optimade.jsonl"
                    end in
  match fs jsonl_path with
  | Some _ => (fs, inl (RuntimeError NotOverwriting))
  | None =>
      match open_error jsonl_path with
      | Some e => (fs, inl e)
      | None =>
          let fs := fs_append fs jsonl_path EmptyString in
          let fs := write_line fs jsonl_path header_json in
          match write_infos property_definitions provider_prefix jsonl_path fs
          with
          | (fs, inl e) => (fs, inl e)
          | (fs, inr _) =>
              match write_entries optimade_entries jsonl_path fs with
              | (fs, inl e) => (fs, inl e)
              | (fs, inr _) => (fs, inr jsonl_path)
              end
          end
      end
  end.

(** The target of [write_optimade_jsonl]: the path given, or
    [archive_path / "optimade.jsonl"]. *)
Definition target (jsonl_path : option Path) : Path :=
  match jsonl_path with
  | Some p => p
  | None => joinpath "optimade.jsonl"
  end.

(** The text of a file made of the given lines, each ended by a newline. *)
Definition file_text (lines : list string) : string :=
  fold_right (fun l acc => (l ++ newline ++ acc)%string) EmptyString lines.

Definition write_lines (fs : FS) (p : Path) (lines : list string) : FS :=
  fold_left (fun fs s => write_line fs p s) lines fs.

(** The records of all entry types, in the order they are written. *)
Definition all_records (optimade_entries : dict string (list Entry))
  : list Entry :=
  concat (dict_values optimade_entries).

(** What is handed to [json.dumps] for a record. *)
Definition stripped (e : Entry) : Entry :=
  set_attributes e (strip_ase (e_attributes e)).

(** The files [_parse_entries] goes through, in order, each with its
    sub-archive name and the number of files matched under that name. *)
Definition files_of (matches_by_file : matches_dict)
  : list (option string * nat * Path) :=
  flat_map (fun kv => map (fun p => (fst kv, length (snd kv), p)) (snd kv))
           matches_by_file.

(** Some parser registered for the entry type returned [doc] for the file,
    and [doc] is not empty. *)
Definition parsed_by (entry_type : string) (_path : Path) (doc : parsed)
  : Prop :=
  exists parsers parser,
    dict_get String.eqb ENTRY_PARSERS entry_type = Some parsers
    /\ In parser parsers /\ parser _path = inr doc /\ not_doc doc = false.

(** Every property name of every parsed row is among the names found. *)
Definition fields_cover (st : rows * list string) : Prop :=
  forall key r property,
    In (key, r) (fst st) -> In property (dict_keys r) -> In property (snd st).

(** Rectangularity over the declared property definitions, as the
    specification words it. *)
Definition rectangular_over_declared
           (optimade_entries : dict string Entry)
           (property_matches_by_file : matches_dict)
           (property_definitions : list PropertyDefinition)
           (provider_prefix : string) : Prop :=
  property_definitions <> [] ->
  forall optimade_entries',
    outcome (_parse_and_assign_properties optimade_entries
               property_matches_by_file property_definitions provider_prefix)
    = inr optimade_entries' ->
    forall id e pd,
      In (id, e) optimade_entries' -> In pd property_definitions ->
      dict_mem String.eqb (e_attributes e) (prefixed provider_prefix (name pd))
      = true.

(** Reconciliation as the specification words it: an entry neither of
    whose two keys (the [immutable_id] attribute, the file-name stem of its
    identifier) is in the parsed rows gets None for every declared
    property. *)
Definition unmatched_entry_gets_None
           (parsed_properties : rows) (all_property_fields : list string)
           (property_def_dict : dict string PropertyDefinition)
           (provider_prefix : string) (kv : string * Entry) : Prop :=
  (forall v, dict_get String.eqb (e_attributes (snd kv)) "immutable_id" = Some v ->
             dict_mem py_eqb parsed_properties v = false) ->
  dict_mem py_eqb parsed_properties (VStr (filename_stem (fst kv))) = false ->
  forall kv',
    outcome (assign_entry parsed_properties all_property_fields
                          property_def_dict provider_prefix kv) = inr kv' ->
    forall property pd,
      In property all_property_fields ->
      dict_get String.eqb property_def_dict property = Some pd ->
      dict_get String.eqb (e_attributes (snd kv'))
               (prefixed provider_prefix property) = Some VNone.

(** C9 as stated: a falsy value (0, 0.0, False, the empty string) that the
    row under the key tried first holds for a property is never the value
    looked up for the entry. *)
Definition falsy_first_key_value_is_never_assigned
           (parsed_properties : rows) (kv : string * Entry)
           (property : string) : Prop :=
  let first := property_entry_id_of (fst kv) (e_attributes (snd kv)) in
  truthy (lookup parsed_properties first property) = false ->
  is_None (lookup parsed_properties first property) = false ->
  lookup_value parsed_properties first (fst kv) property
  <> lookup parsed_properties first property.

(** Some pattern of the path specifications contains a wildcard and its
    expansion is empty. *)
Definition unmatched_wildcard (paths : list ParsedFiles) : Prop :=
  exists path m,
    In path paths /\ In m (matches path)
    /\ contains_star m = true /\ glob m = [].

(** A path specification without patterns names its file. *)
Definition names_its_file (path : ParsedFiles) : Prop :=
  matches path = [] -> file path <> None.

(** The entry type has parsers and converters registered. *)
Definition supported (entry_type : string) : Prop :=
  dict_get String.eqb ENTRY_PARSERS entry_type <> None
  /\ dict_get String.eqb OPTIMADE_CONVERTERS entry_type <> None.

(** The missing-wildcard property as the specification words it: the
    not-found error comes before any parsing has begun, whichever list of
    path specifications holds the pattern. *)
Definition fails_before_any_parsing (entry_config : EntryConfig)
           (provider_prefix : string) : Prop :=
  unmatched_wildcard (entry_paths entry_config)
  \/ unmatched_wildcard (property_paths entry_config) ->
  exists m,
    construct_entries entry_config provider_prefix
    = ([], inl (FileNotFoundError (WildcardNoMatch m))).

(** What assignment may do to one entry, [kv] before and [kv'] after: the
    key, the identifier and the other fields stay; an attribute whose value
    differs is under the prefixed name of a declared property; the prefixed
    name of an undeclared property keeps what it had. *)
Definition changes_only_declared
           (property_definitions : list PropertyDefinition)
           (provider_prefix : string) (kv kv' : string * Entry) : Prop :=
  fst kv' = fst kv
  /\ e_id (snd kv') = e_id (snd kv)
  /\ e_rest (snd kv') = e_rest (snd kv)
  /\ (forall k,
         dict_get String.eqb (e_attributes (snd kv')) k
         <> dict_get String.eqb (e_attributes (snd kv)) k ->
         exists pd, In pd property_definitions
                    /\ k = prefixed provider_prefix (name pd))
  /\ (forall property,
         ~ In property (map name property_definitions) ->
         dict_get String.eqb (e_attributes (snd kv'))
                  (prefixed provider_prefix property)
         = dict_get String.eqb (e_attributes (snd kv))
                    (prefixed provider_prefix property)).

(** ** Reasoning about the monad *)

Lemma outcome_bind_inr W A B (m : M W A) (f : A -> M W B) (b : B) :
  outcome (bind m f) = inr b ->
  exists a, outcome m = inr a /\ outcome (f a) = inr b.
Proof.
  destruct m as [l [e | a]]; simpl; [discriminate |].
  destruct (f a) as [l' r] eqn:Hf; simpl. intros ->.
  exists a. rewrite Hf. auto.
Qed.

Lemma outcome_bind_of_inr W A B (m : M W A) (f : A -> M W B) (a : A) :
  outcome m = inr a -> outcome (bind m f) = outcome (f a).
Proof.
  destruct m as [l [e | a']]; simpl; [discriminate |].
  intros [= ->]. now destruct (f a).
Qed.

Lemma outcome_bind_of_inl W A B (m : M W A) (f : A -> M W B) (e : exn) :
  outcome m = inl e -> outcome (bind m f) = inl e.
Proof.
  destruct m as [l [e' | a]]; simpl; [| discriminate].
  now intros [= ->].
Qed.

Lemma log_bind_of_inl W A B (m : M W A) (f : A -> M W B) (e : exn) :
  outcome m = inl e -> log (bind m f) = log m.
Proof.
  destruct m as [l [e' | a]]; simpl; [reflexivity | discriminate].
Qed.

Lemma log_bind_of_inr W A B (m : M W A) (f : A -> M W B) (a : A) :
  outcome m = inr a -> log (bind m f) = log m ++ log (f a).
Proof.
  destruct m as [l [e' | a']]; simpl; [discriminate |].
  intros [= ->]. now destruct (f a).
Qed.

Lemma M_eta W A (m : M W A) : m = (log m, outcome m).
Proof. now destruct m. Qed.

(** A property kept by every successful step of a loop holds of its result. *)
Lemma foldM_invariant W A B (f : A -> B -> M W A) (P : A -> Prop) (l : list B) :
  (forall a b a', In b l -> P a -> outcome (f a b) = inr a' -> P a') ->
  forall a a', P a -> outcome (foldM f a l) = inr a' -> P a'.
Proof.
  induction l as [| b l IH]; intros Hstep a a' Ha; simpl.
  - now intros [= <-].
  - intros H. apply outcome_bind_inr in H as (a1 & H1 & H2).
    apply (IH (fun a0 b0 a0' Hin => Hstep a0 b0 a0' (or_intror Hin)) a1 a');
      [| exact H2].
    apply (Hstep a b a1); simpl; auto.
Qed.

(** A step that fails from every state makes the loop fail. *)
Lemma foldM_fails W A B (f : A -> B -> M W A) (l : list B) (b : B) :
  In b l ->
  (forall a, exists e, outcome (f a b) = inl e) ->
  forall a, exists e, outcome (foldM f a l) = inl e.
Proof.
  induction l as [| b' l IH]; intros Hin Hfail a; [contradiction |].
  simpl. destruct (outcome (f a b')) as [e | a1] eqn:H1.
  - exists e. now apply outcome_bind_of_inl.
  - rewrite (outcome_bind_of_inr _ _ H1).
    destruct Hin as [-> | Hin].
    + destruct (Hfail a) as [e He]. congruence.
    + now apply IH.
Qed.

(** A loop whose steps all succeed succeeds. *)
Lemma foldM_succeeds W A B (f : A -> B -> M W A) (l : list B) :
  (forall a b, In b l -> exists a', outcome (f a b) = inr a') ->
  forall a, exists a', outcome (foldM f a l) = inr a'.
Proof.
  induction l as [| b l IH]; intros Hok a; simpl.
  - now exists a.
  - destruct (Hok a b (or_introl eq_refl)) as [a1 H1].
    rewrite (outcome_bind_of_inr _ _ H1).
    apply IH. intros a0 b0 Hin. apply Hok. now right.
Qed.

Lemma mapM_Forall2 W A B (f : A -> M W B) (l : list A) (bs : list B) :
  outcome (mapM f l) = inr bs ->
  Forall2 (fun a b => outcome (f a) = inr b) l bs.
Proof.
  revert bs. induction l as [| a l IH]; intros bs; simpl.
  - intros [= <-]. constructor.
  - intros H. apply outcome_bind_inr in H as (b & Hb & H).
    apply outcome_bind_inr in H as (bs' & Hbs & H).
    simpl in H. injection H as <-. constructor; auto.
Qed.

Lemma mapM_fails W A B (f : A -> M W B) (l : list A) (a : A) :
  In a l -> (exists e, outcome (f a) = inl e) ->
  exists e, outcome (mapM f l) = inl e.
Proof.
  induction l as [| a' l IH]; intros Hin Hfail; [contradiction |].
  simpl. destruct (outcome (f a')) as [e | b] eqn:H1.
  - exists e. now apply outcome_bind_of_inl.
  - rewrite (outcome_bind_of_inr _ _ H1).
    destruct Hin as [-> | Hin].
    + destruct Hfail as [e He]. congruence.
    + destruct (IH Hin Hfail) as [e He]. exists e.
      now apply outcome_bind_of_inl.
Qed.

(** ** The serializer *)

Lemma append_assoc (a b c : string) : ((a ++ b) ++ c = a ++ (b ++ c))%string.
Proof. induction a as [| x a IH]; simpl; [reflexivity | now rewrite IH]. Qed.

Lemma append_empty_r (a : string) : (a ++ "")%string = a.
Proof. induction a as [| x a IH]; simpl; [reflexivity | now rewrite IH]. Qed.

Lemma fs_append_same fs p s :
  fs_append fs p s p = Some (match fs p with Some c => c ++ s | None => s end)%string.
Proof. unfold fs_append. destruct (Path_eq_dec p p); congruence. Qed.

Lemma fs_append_other fs p s q : q <> p -> fs_append fs p s q = fs q.
Proof. unfold fs_append. destruct (Path_eq_dec q p); congruence. Qed.

Lemma write_line_same fs p s c :
  fs p = Some c -> write_line fs p s p = Some (c ++ s ++ newline)%string.
Proof.
  intros H. unfold write_line. rewrite !fs_append_same, H.
  now rewrite append_assoc.
Qed.

Lemma write_line_other fs p s q : q <> p -> write_line fs p s q = fs q.
Proof. intros H. unfold write_line. now rewrite !fs_append_other. Qed.

Lemma write_lines_same lines : forall fs p c,
  fs p = Some c -> write_lines fs p lines p = Some (c ++ file_text lines)%string.
Proof.
  induction lines as [| l lines IH]; intros fs p c H; simpl.
  - now rewrite append_empty_r.
  - unfold write_lines in *. simpl.
    rewrite (IH _ _ _ (write_line_same fs p l H)).
    now rewrite !append_assoc.
Qed.

Lemma write_lines_other lines : forall fs p q,
  q <> p -> write_lines fs p lines q = fs q.
Proof.
  induction lines as [| l lines IH]; intros fs p q H; simpl; [reflexivity |].
  unfold write_lines in *. simpl. rewrite IH by assumption.
  now apply write_line_other.
Qed.

Lemma write_lines_app fs p a b :
  write_lines fs p (a ++ b) = write_lines (write_lines fs p a) p b.
Proof. unfold write_lines. apply fold_left_app. Qed.

Lemma write_infos_ok prefix p : forall pdefs fs fs',
  write_infos pdefs prefix p fs = (fs', inr tt) ->
  exists infos,
    Forall2 (fun kv line =>
               exists r, _construct_entry_type_info (fst kv) (snd kv) prefix
                         = inr r /\ line = info_json r) pdefs infos
    /\ fs' = write_lines fs p infos.
Proof.
  induction pdefs as [| [t defs] pdefs IH]; intros fs fs'; simpl.
  - intros [= <-]. exists []. split; [constructor | reflexivity].
  - destruct (_construct_entry_type_info t defs prefix) as [e | r] eqn:Hr;
      [discriminate |].
    intros H. apply IH in H as (infos & HF & ->).
    exists (info_json r :: infos). split; [| reflexivity].
    constructor; [| assumption]. exists r. auto.
Qed.

Lemma write_records_ok p : forall entries fs fs',
  write_records entries p fs = (fs', inr tt) ->
  exists records,
    Forall2 (fun e line => json_dumps (stripped e) = inr line) entries records
    /\ fs' = write_lines fs p records.
Proof.
  induction entries as [| e entries IH]; intros fs fs'; simpl.
  - intros [= <-]. exists []. split; [constructor | reflexivity].
  - fold (stripped e). destruct (json_dumps (stripped e)) as [x | line] eqn:Hd;
      [discriminate |].
    intros H. apply IH in H as (records & HF & ->).
    exists (line :: records). split; [| reflexivity]. now constructor.
Qed.

Lemma write_entries_ok p : forall optimade_entries fs fs',
  write_entries optimade_entries p fs = (fs', inr tt) ->
  exists records,
    Forall2 (fun e line => json_dumps (stripped e) = inr line)
            (all_records optimade_entries) records
    /\ fs' = write_lines fs p records.
Proof.
  induction optimade_entries as [| [t entries] rest IH]; intros fs fs'.
  - simpl. intros [= <-]. exists []. split; [constructor | reflexivity].
  - unfold all_records. simpl.
    assert (Hgen : (let (fs1, r) := write_records entries p fs in
                    match r with
                    | inl e => (fs1, inl e)
                    | inr _ => write_entries rest p fs1
                    end) = (fs', inr tt) ->
                   exists records,
                     Forall2 (fun e line => json_dumps (stripped e) = inr line)
                             (entries ++ concat (dict_values rest)) records
                     /\ fs' = write_lines fs p records).
    { destruct (write_records entries p fs) as [fs1 [e | []]] eqn:Hw;
        [discriminate |].
      intros H. apply write_records_ok in Hw as (r1 & HF1 & ->).
      apply IH in H as (r2 & HF2 & ->).
      exists (r1 ++ r2). split; [now apply Forall2_app |].
      now rewrite write_lines_app. }
    destruct entries as [| e entries]; [| exact Hgen].
    intros H. apply IH in H. exact H.
Qed.

(** C7. Called with a target path at which a file exists,
    [write_optimade_jsonl] raises its not-overwriting error and hands back
    the file system it was given: nothing is opened or written, so the
    existing file keeps its text. *)
Theorem existing_output_is_left_untouched
        optimade_entries property_definitions provider_prefix jsonl_path
        (fs : FS) (text : string) :
  fs (target jsonl_path) = Some text ->
  write_optimade_jsonl optimade_entries property_definitions provider_prefix
                       jsonl_path fs
  = (fs, inl (RuntimeError NotOverwriting))
  /\ fst (write_optimade_jsonl optimade_entries property_definitions
                               provider_prefix jsonl_path fs)
         (target jsonl_path) = Some text.
Proof.
  intros H. unfold write_optimade_jsonl. fold (target jsonl_path).
  rewrite H. simpl. auto.
Qed.

(** C5. A successful [write_optimade_jsonl] leaves at the target a file of
    exactly these lines, in this order: the x-optimade header; one info line
    for each entry type of the property-definitions map (whether or not the
    type has records); then one line for each record, type by type and in
    list order within a type, types without records adding nothing.  That is
    1 + (entry types with definitions) + (sum of records per type) lines. *)
Theorem jsonl_line_order
        optimade_entries property_definitions provider_prefix jsonl_path
        (fs fs' : FS) (p : Path) :
  write_optimade_jsonl optimade_entries property_definitions provider_prefix
                       jsonl_path fs = (fs', inr p) ->
  exists infos records : list string,
    Forall2 (fun kv line =>
               exists r, _construct_entry_type_info (fst kv) (snd kv)
                                                    provider_prefix = inr r
                         /\ line = info_json r)
            property_definitions infos
    /\ Forall2 (fun e line => json_dumps (stripped e) = inr line)
               (all_records optimade_entries) records
    /\ p = target jsonl_path
    /\ fs' p = Some (file_text (header_json :: infos ++ records))
    /\ length (header_json :: infos ++ records)
       = 1 + length property_definitions
         + list_sum (map (fun kv => length (snd kv)) optimade_entries).
Proof.
  unfold write_optimade_jsonl. fold (target jsonl_path).
  destruct (fs (target jsonl_path)) as [c |] eqn:Hfs; [discriminate |].
  destruct (open_error (target jsonl_path)) as [e |]; [discriminate |].
  set (fs0 := write_line (fs_append fs (target jsonl_path) "")
                         (target jsonl_path) header_json).
  destruct (write_infos property_definitions provider_prefix
                        (target jsonl_path) fs0) as [fs1 [e | []]] eqn:Hi;
    [discriminate |].
  destruct (write_entries optimade_entries (target jsonl_path) fs1)
    as [fs2 [e | []]] eqn:He; [discriminate |].
  intros [= <- <-].
  apply write_infos_ok in Hi as (infos & HFi & ->).
  apply write_entries_ok in He as (records & HFr & ->).
  exists infos, records. repeat split; try assumption.
  - rewrite <- write_lines_app.
    assert (H0 : fs0 (target jsonl_path) = Some (header_json ++ newline)%string).
    { unfold fs0. rewrite (@write_line_same _ _ _ ""%string).
      - reflexivity.
      - rewrite fs_append_same, Hfs. reflexivity. }
    rewrite (write_lines_same _ _ _ H0).
    change (file_text (header_json :: infos ++ records))
      with (header_json ++ newline ++ file_text (infos ++ records))%string.
    now rewrite append_assoc.
  - simpl. rewrite length_app.
    rewrite <- (Forall2_length HFi), <- (Forall2_length HFr).
    unfold all_records, dict_values. f_equal. f_equal.
    clear. induction optimade_entries as [| [t es] rest IH]; simpl;
      [reflexivity |].
    rewrite length_app. now rewrite IH.
Qed.

(** ** The entry ingestor *)

Lemma bind_ext W A B (m : M W A) (f g : A -> M W B) :
  (forall a, f a = g a) -> bind m f = bind m g.
Proof. intros H. destruct m as [l [e | a]]; simpl; [reflexivity | now rewrite H]. Qed.

Lemma bind_assoc W A B C (m : M W A) (f : A -> M W B) (g : B -> M W C) :
  bind (bind m f) g = bind m (fun a => bind (f a) g).
Proof.
  destruct m as [l [e | a]]; simpl; [reflexivity |].
  destruct (f a) as [l1 [e | b]]; simpl; [reflexivity |].
  destruct (g b) as [l2 r]. now rewrite app_assoc.
Qed.

Lemma bind_ret_l W A B (a : A) (f : A -> M W B) : bind (ret a) f = f a.
Proof. unfold ret. simpl. now destruct (f a). Qed.

Lemma bind_pure W A B (a : A) (f : A -> M W B) :
  bind (@pair (list W) (exn + A) [] (inr a)) f = f a.
Proof. apply bind_ret_l. Qed.

Lemma bind_ret_r W A (m : M W A) : bind m ret = m.
Proof.
  destruct m as [l [e | a]]; simpl; [reflexivity | now rewrite app_nil_r].
Qed.

Lemma outcome_tell W B (w : W) (k : M W B) :
  outcome (bind (tell w) (fun _ => k)) = outcome k.
Proof. unfold tell. simpl. now destruct k. Qed.

Lemma foldM_app W A B (f : A -> B -> M W A) (l1 l2 : list B) : forall a,
  foldM f a (l1 ++ l2) = bind (foldM f a l1) (fun a' => foldM f a' l2).
Proof.
  induction l1 as [| b l1 IH]; intros a.
  - change (foldM f a []) with (@ret W A a). now rewrite bind_ret_l.
  - simpl. rewrite bind_assoc. apply bind_ext. intros a'. apply IH.
Qed.

Lemma foldM_map W A B C (f : A -> B -> M W A) (g : C -> B) (l : list C) :
  forall a, foldM f a (map g l) = foldM (fun a c => f a (g c)) a l.
Proof.
  induction l as [| c l IH]; intros a; simpl; [reflexivity |].
  apply bind_ext. intros a'. apply IH.
Qed.

Lemma foldM_flat_map W A B C (f : A -> B -> M W A) (g : C -> list B)
      (l : list C) : forall a,
  foldM f a (flat_map g l) = foldM (fun a c => foldM f a (g c)) a l.
Proof.
  induction l as [| c l IH]; intros a; simpl; [reflexivity |].
  rewrite foldM_app. apply bind_ext. intros a'. apply IH.
Qed.

Lemma try_parsers_some _path doc : forall parsers,
  outcome (try_parsers parsers _path) = inr (Some doc) ->
  exists parser,
    In parser parsers /\ parser _path = inr doc /\ not_doc doc = false.
Proof.
  induction parsers as [| parser rest IH]; [discriminate |].
  cbn [try_parsers]. rewrite outcome_tell.
  destruct (parser _path) as [e | d] eqn:Hp.
  - intros H. destruct (IH H) as (q & Hin & Hq). exists q.
    split; [now right | exact Hq].
  - destruct (not_doc d) eqn:Hn.
    + intros H. destruct (IH H) as (q & Hin & Hq). exists q.
      split; [now right | exact Hq].
    + simpl. intros [= ->]. exists parser.
      split; [now left | split; assumption].
Qed.

(** C6. For every file that [_parse_entries] takes in, the identifier root
    is the sub-archive name joined with the file's path relative to the
    archive when more than one file is matched under that name, and the
    sub-archive name alone when exactly one is; a parser result that is a
    list of documents adds the identifiers root/0, root/1, ... in order, a
    single document adds the root itself.  [_parse_entries] applies this
    step to every matched file in order, with the number of files matched
    under the file's own sub-archive name. *)
Theorem entry_identifiers_are_derived_from_paths (entry_type : string) :
  (forall archive_file n_matches acc _path docs ids,
      outcome (parse_file entry_type archive_file n_matches acc _path)
      = inr (docs, ids) ->
      exists path_in_archive doc root,
        relative_to _path = inr path_in_archive
        /\ parsed_by entry_type _path doc
        /\ (1 < n_matches ->
            root = (str_of_file archive_file ++ "/" ++ path_in_archive)%string)
        /\ (n_matches = 1 -> root = str_of_file archive_file)
        /\ docs = fst acc ++ docs_of doc
        /\ (forall d, doc = One d -> ids = snd acc ++ [root])
        /\ (forall ds, doc = Many ds ->
            ids = snd acc
                  ++ map (fun ind => (root ++ "/" ++ str_of_nat ind)%string)
                         (seq 0 (length ds))))
  /\ (forall matches_by_file,
         _parse_entries matches_by_file entry_type
         = foldM (fun acc f =>
                    parse_file entry_type (fst (fst f)) (snd (fst f)) acc (snd f))
                 ([], []) (files_of matches_by_file)).
Proof.
  split.
  - intros archive_file n_matches acc _path docs ids H.
    unfold parse_file in H.
    apply outcome_bind_inr in H as (rel & Hrel & H).
    apply outcome_bind_inr in H as (parsers & Hps & H).
    apply outcome_bind_inr in H as (r & Hr & H).
    destruct r as [doc |]; [| discriminate].
    simpl in H. injection H as <- <-.
    destruct (dict_get String.eqb ENTRY_PARSERS entry_type) as [ps |] eqn:Hd;
      [| discriminate].
    simpl in Hps. injection Hps as ->.
    apply try_parsers_some in Hr as (parser & Hin & Hp & Hn).
    exists rel, doc, (id_root_of archive_file n_matches rel).
    repeat split.
    + exact Hrel.
    + exists parsers, parser. auto.
    + intros Hn1. unfold id_root_of.
      destruct (Nat.ltb_spec 1 n_matches); [reflexivity | lia].
    + intros ->. reflexivity.
    + intros d ->. reflexivity.
    + intros ds ->. reflexivity.
  - intros matches_by_file. unfold _parse_entries, files_of.
    rewrite foldM_flat_map. generalize (@nil Doc, @nil string).
    induction matches_by_file as [| kv rest IH]; intros acc; simpl;
      [reflexivity |].
    rewrite foldM_map. simpl. apply bind_ext. intros a. apply IH.
Qed.

(** ** Dictionaries keyed by strings *)

Section StringDict.
Variable V : Type.
Implicit Types (d : dict string V) (k : string) (v : V).

Lemma dict_get_set_same d k v : dict_get String.eqb (dict_set String.eqb d k v) k = Some v.
Proof.
  induction d as [| [k' v'] d IH]; simpl.
  - now rewrite String.eqb_refl.
  - destruct (String.eqb k' k) eqn:E; simpl; rewrite E; auto.
Qed.

Lemma dict_get_set_other d k v k' :
  k' <> k ->
  dict_get String.eqb (dict_set String.eqb d k v) k' = dict_get String.eqb d k'.
Proof.
  intros Hne. induction d as [| [k0 v0] d IH]; simpl.
  - destruct (String.eqb_spec k k'); congruence.
  - destruct (String.eqb_spec k0 k) as [-> | Hk]; simpl.
    + destruct (String.eqb_spec k k'); congruence.
    + destruct (String.eqb k0 k'); auto.
Qed.

Lemma dict_get_In d k v : dict_get String.eqb d k = Some v -> In (k, v) d.
Proof.
  induction d as [| [k0 v0] d IH]; simpl; [discriminate |].
  destruct (String.eqb_spec k0 k) as [-> | Hk].
  - intros [= ->]. now left.
  - intros H. right. auto.
Qed.

Lemma In_dict_get d k v :
  In (k, v) d -> exists v', dict_get String.eqb d k = Some v'.
Proof.
  induction d as [| [k0 v0] d IH]; simpl; [contradiction |].
  intros [[= -> ->] | H].
  - rewrite String.eqb_refl. eauto.
  - destruct (String.eqb k0 k); eauto.
Qed.

Lemma dict_set_In d k v k' v' :
  In (k', v') (dict_set String.eqb d k v) -> In (k', v') d \/ (k' = k /\ v' = v).
Proof.
  induction d as [| [k0 v0] d IH]; simpl.
  - intros [[= <- <-] | []]. auto.
  - destruct (String.eqb_spec k0 k) as [-> | Hk]; simpl.
    + intros [[= <- <-] | H]; auto.
    + intros [H | H]; auto. apply IH in H as [H | H]; auto.
Qed.

Lemma dict_set_keys d k v k' :
  In k' (dict_keys (dict_set String.eqb d k v)) -> In k' (dict_keys d) \/ k' = k.
Proof.
  unfold dict_keys. induction d as [| [k0 v0] d IH]; simpl.
  - intros [-> | []]. now right.
  - destruct (String.eqb_spec k0 k) as [-> | Hk]; simpl.
    + intros [H | H]; auto.
    + intros [H | H]; auto. apply IH in H as [H | H]; auto.
Qed.

Lemma dict_update_keys e : forall d k',
  In k' (dict_keys (dict_update String.eqb d e)) ->
  In k' (dict_keys d) \/ In k' (dict_keys e).
Proof.
  unfold dict_update.
  induction e as [| [k v] e IH]; intros d k'; simpl; [auto |].
  intros H. apply IH in H as [H | H]; [| auto].
  apply dict_set_keys in H. simpl in H. destruct H as [H | ->]; auto.
Qed.

End StringDict.

Lemma prefixed_inj provider_prefix a b :
  prefixed provider_prefix a = prefixed provider_prefix b -> a = b.
Proof.
  unfold prefixed. simpl. intros [= H]. revert H.
  induction provider_prefix as [| c p IH]; simpl.
  - now intros [= ->].
  - intros [= H]. auto.
Qed.

(** ** The property-definition dictionary *)

Lemma make_property_def_dict_sound defs property pd :
  dict_get String.eqb (make_property_def_dict defs) property = Some pd ->
  In pd defs /\ name pd = property.
Proof.
  unfold make_property_def_dict.
  assert (G : forall l d,
             (forall q, In q l -> In q defs) ->
             (forall k v, dict_get String.eqb d k = Some v ->
                          In v defs /\ name v = k) ->
             forall k v,
               dict_get String.eqb
                 (fold_left (fun d p => dict_set String.eqb d (name p) p) l d) k
               = Some v -> In v defs /\ name v = k).
  { induction l as [| q l IH]; intros d Hl Hd k v; simpl; [apply Hd |].
    apply IH.
    - intros q' Hq'. apply Hl. now right.
    - intros k0 v0. destruct (String.eqb_spec k0 (name q)) as [-> | Hne].
      + rewrite dict_get_set_same. intros [= <-]. split; [| reflexivity].
        apply Hl. now left.
      + rewrite dict_get_set_other by assumption. apply Hd. }
  apply G; [auto | simpl; discriminate].
Qed.

Lemma make_property_def_dict_complete defs pd :
  In pd defs ->
  exists pd', dict_get String.eqb (make_property_def_dict defs) (name pd)
              = Some pd'.
Proof.
  unfold make_property_def_dict.
  assert (G : forall l d k,
             (In k (map name l)
              \/ exists v, dict_get String.eqb d k = Some v) ->
             exists v,
               dict_get String.eqb
                 (fold_left (fun d p => dict_set String.eqb d (name p) p) l d) k
               = Some v).
  { induction l as [| q l IH]; intros d k; simpl.
    - intros [[] | H]. exact H.
    - intros H. apply IH.
      destruct (String.eqb_spec k (name q)) as [-> | Hne].
      + right. rewrite dict_get_set_same. eauto.
      + rewrite dict_get_set_other by assumption.
        destruct H as [[H | H] | H]; [congruence | now left | now right]. }
  intros Hin. apply G. left. now apply in_map.
Qed.

(** ** Property assignment *)

Section Assignment.
Variable parsed_properties : rows.
Variable property_def_dict : dict string PropertyDefinition.
Variable provider_prefix : string.
Variable id : string.
Variable property_entry_id : pyval.

Let step := assign_property parsed_properties property_def_dict
                            provider_prefix id property_entry_id.
Let value := lookup_value parsed_properties property_entry_id id.

Lemma assign_property_outcome attrs property :
  outcome (step attrs property)
  = match dict_get String.eqb property_def_dict property with
    | None => inr attrs
    | Some pd =>
        match cast_value pd (value property) with
        | inl e => inl e
        | inr v => inr (dict_set String.eqb attrs
                                 (prefixed provider_prefix property) v)
        end
    end.
Proof.
  unfold step, value, assign_property.
  destruct (dict_get String.eqb property_def_dict property) as [pd |];
    [| reflexivity].
  now destruct (cast_value pd _).
Qed.

(** Keys outside the declared properties of the loop keep their value. *)
Lemma assign_loop_frame k : forall fields attrs attrs',
  outcome (foldM step attrs fields) = inr attrs' ->
  (forall property pd,
      In property fields ->
      dict_get String.eqb property_def_dict property = Some pd ->
      k <> prefixed provider_prefix property) ->
  dict_get String.eqb attrs' k = dict_get String.eqb attrs k.
Proof.
  intros fields attrs attrs' H Hk.
  apply (foldM_invariant step
           (fun a => dict_get String.eqb a k = dict_get String.eqb attrs k)
           fields) with (a := attrs); [| reflexivity | exact H].
  intros a b a' Hin Ha Hs. rewrite assign_property_outcome in Hs.
  destruct (dict_get String.eqb property_def_dict b) as [pd |] eqn:Hb.
  - destruct (cast_value pd (value b)) as [e | v]; [discriminate |].
    injection Hs as <-. rewrite dict_get_set_other; [exact Ha |].
    now apply (Hk b pd).
  - now injection Hs as <-.
Qed.

(** A declared property of the loop ends up under its prefixed key, holding
    the cast of the value looked up for it. *)
Lemma assign_loop_value property pd : forall fields attrs attrs',
  outcome (foldM step attrs fields) = inr attrs' ->
  In property fields ->
  dict_get String.eqb property_def_dict property = Some pd ->
  exists v,
    cast_value pd (value property) = inr v
    /\ dict_get String.eqb attrs' (prefixed provider_prefix property) = Some v.
Proof.
  intros fields attrs attrs' H Hin Hpd.
  set (key := prefixed provider_prefix property).
  assert (Hkeep : forall v l a a',
             cast_value pd (value property) = inr v ->
             dict_get String.eqb a key = Some v ->
             outcome (foldM step a l) = inr a' ->
             dict_get String.eqb a' key = Some v).
  { intros v l a a' Hv Ha Hl.
    apply (foldM_invariant step
             (fun x => dict_get String.eqb x key = Some v) l) with (a := a);
      [| exact Ha | exact Hl].
    intros x b x' _ Hx Hs. rewrite assign_property_outcome in Hs.
    destruct (dict_get String.eqb property_def_dict b) as [pb |] eqn:Hb;
      [| now injection Hs as <-].
    destruct (cast_value pb (value b)) as [e | vb] eqn:Hc; [discriminate |].
    injection Hs as <-.
    destruct (String.eqb_spec key (prefixed provider_prefix b)) as [E | E].
    - apply prefixed_inj in E. subst b.
      rewrite Hpd in Hb. injection Hb as <-.
      rewrite Hv in Hc. injection Hc as <-.
      unfold key. apply dict_get_set_same.
    - now rewrite dict_get_set_other. }
  revert attrs H Hin.
  induction fields as [| b fields IH]; intros attrs H Hin; [contradiction |].
  simpl in H. apply outcome_bind_inr in H as (a1 & H1 & H2).
  destruct Hin as [-> | Hin]; [| now apply (IH a1)].
  fold step in H1. rewrite assign_property_outcome, Hpd in H1.
  destruct (cast_value pd (value property)) as [e | v] eqn:Hc; [discriminate |].
  injection H1 as <-. exists v. split; [reflexivity |].
  eapply Hkeep; [reflexivity | apply dict_get_set_same | exact H2].
Qed.

End Assignment.

Lemma assign_entry_inversion parsed_properties all_property_fields
      property_def_dict provider_prefix kv kv' :
  outcome (assign_entry parsed_properties all_property_fields property_def_dict
                        provider_prefix kv) = inr kv' ->
  exists attrs,
    outcome (foldM (assign_property parsed_properties property_def_dict
                                    provider_prefix (fst kv)
                                    (property_entry_id_of
                                       (fst kv) (e_attributes (snd kv))))
                   (e_attributes (snd kv)) all_property_fields) = inr attrs
    /\ kv' = (fst kv, set_attributes (snd kv) attrs).
Proof.
  unfold assign_entry. intros H.
  apply outcome_bind_inr in H as (attrs & H1 & H2).
  exists attrs. split; [exact H1 |]. simpl in H2. now injection H2 as <-.
Qed.

Lemma assignment_inversion optimade_entries property_matches_by_file
      property_definitions provider_prefix optimade_entries' :
  property_matches_by_file <> [] ->
  outcome (_parse_and_assign_properties optimade_entries
             property_matches_by_file property_definitions provider_prefix)
  = inr optimade_entries' ->
  exists st,
    outcome (parse_properties property_matches_by_file property_definitions)
    = inr st
    /\ fst st <> []
    /\ Forall2 (fun kv kv' =>
                  outcome (assign_entry (fst st) (snd st)
                             (make_property_def_dict property_definitions)
                             provider_prefix kv) = inr kv')
               optimade_entries optimade_entries'.
Proof.
  intros Hne. unfold _parse_and_assign_properties.
  destruct property_matches_by_file as [| m ms]; [congruence |].
  intros H. apply outcome_bind_inr in H as (st & Hst & H).
  exists st. split; [exact Hst |].
  destruct (fst st) as [| r rs] eqn:Hrows; [discriminate |].
  split; [discriminate |].
  apply outcome_bind_inr in H as ([] & _ & H).
  now apply mapM_Forall2.
Qed.

(** C10. Property assignment changes an entry's attribute mapping only
    under keys _<provider_prefix>_<name> with <name> the name of a declared
    property definition: the entry keeps its identifier and its other
    fields, every key whose value differs afterwards is such a key, and a
    property name that is not declared leaves the value under its prefixed
    key as it was (it is skipped with a warning, which is no failure). *)
Theorem only_declared_properties_are_assigned
        optimade_entries property_matches_by_file property_definitions
        provider_prefix optimade_entries' :
  outcome (_parse_and_assign_properties optimade_entries
             property_matches_by_file property_definitions provider_prefix)
  = inr optimade_entries' ->
  Forall2 (changes_only_declared property_definitions provider_prefix)
          optimade_entries optimade_entries'.
Proof.
  unfold changes_only_declared. intros H.
  assert (Hsame : forall (l : dict string Entry),
             Forall2 (fun kv kv' : string * Entry =>
                        fst kv' = fst kv
                        /\ e_id (snd kv') = e_id (snd kv)
                        /\ e_rest (snd kv') = e_rest (snd kv)
                        /\ (forall k,
                               dict_get String.eqb (e_attributes (snd kv')) k
                               <> dict_get String.eqb (e_attributes (snd kv)) k ->
                               exists pd, In pd property_definitions
                                          /\ k = prefixed provider_prefix (name pd))
                        /\ (forall property,
                               ~ In property (map name property_definitions) ->
                               dict_get String.eqb (e_attributes (snd kv'))
                                        (prefixed provider_prefix property)
                               = dict_get String.eqb (e_attributes (snd kv))
                                          (prefixed provider_prefix property)))
                     l l).
  { induction l; constructor; auto. repeat split; auto. congruence. }
  destruct property_matches_by_file as [| m ms] eqn:Hpm.
  - simpl in H. injection H as <-. apply Hsame.
  - rewrite <- Hpm in H. apply assignment_inversion in H; [| congruence].
    destruct H as (st & _ & _ & HF).
    eapply Forall2_impl; [| exact HF].
    intros kv kv' Hkv. apply assign_entry_inversion in Hkv as (attrs & Hl & ->).
    simpl.
    assert (Hframe : forall k,
               (forall pd, In pd property_definitions ->
                           k <> prefixed provider_prefix (name pd)) ->
               dict_get String.eqb attrs k
               = dict_get String.eqb (e_attributes (snd kv)) k).
    { intros k Hk. eapply assign_loop_frame; [exact Hl |].
      intros property pd _ Hpd.
      apply make_property_def_dict_sound in Hpd as [Hin <-]. now apply Hk. }
    repeat split.
    + intros k Hk.
      destruct (in_dec String.string_dec k
                       (map (fun pd => prefixed provider_prefix (name pd))
                            property_definitions)) as [Hin | Hout].
      * apply in_map_iff in Hin as (pd & <- & Hin). eauto.
      * exfalso. apply Hk, Hframe. intros pd Hin ->. apply Hout.
        apply in_map_iff. eauto.
    + intros property Hnot. apply Hframe. intros pd Hin E.
      apply prefixed_inj in E. subst property. apply Hnot. now apply in_map.
Qed.

(** ** Property ingestion *)

Lemma mem_In s l : mem s l = true <-> In s l.
Proof.
  unfold mem. rewrite existsb_exists. split.
  - intros (x & Hin & E). apply String.eqb_eq in E. now subst.
  - intros H. exists s. split; [exact H | apply String.eqb_refl].
Qed.

Lemma set_add_keeps s l n : In n l -> In n (set_add s l).
Proof.
  unfold set_add. destruct (mem s l); [auto |].
  intros H. apply in_or_app. now left.
Qed.

Lemma set_add_adds s l : In s (set_add s l).
Proof.
  unfold set_add. destruct (mem s l) eqn:E.
  - now apply mem_In.
  - apply in_or_app. right. now left.
Qed.

Lemma set_union_l r : forall l n, In n l -> In n (set_union l r).
Proof.
  unfold set_union. induction r as [| s r IH]; intros l n H; simpl; [exact H |].
  apply IH. now apply set_add_keeps.
Qed.

Lemma set_union_r r : forall l n, In n r -> In n (set_union l r).
Proof.
  unfold set_union. induction r as [| s r IH]; intros l n H; simpl;
    [contradiction |].
  destruct H as [-> | H].
  - apply (set_union_l r). apply set_add_adds.
  - now apply IH.
Qed.

Lemma rows_get_In (d : rows) k r :
  dict_get py_eqb d k = Some r -> exists k', In (k', r) d.
Proof.
  induction d as [| [k0 r0] d IH]; simpl; [discriminate |].
  destruct (py_eqb k0 k).
  - intros [= ->]. exists k0. now left.
  - intros H. destruct (IH H) as [k' Hk']. exists k'. now right.
Qed.

Lemma rows_set_In (d : rows) k r k' r' :
  In (k', r') (dict_set py_eqb d k r) -> In (k', r') d \/ r' = r.
Proof.
  induction d as [| [k0 r0] d IH]; simpl.
  - intros [[= <- <-] | []]. now right.
  - destruct (py_eqb k0 k); simpl.
    + intros [[= <- <-] | H]; auto.
    + intros [H | H]; auto. apply IH in H as [H | H]; auto.
Qed.

Lemma merge_row_covers st kv : fields_cover st -> fields_cover (merge_row st kv).
Proof.
  intros Hst key r property Hin Hp. unfold merge_row in *. simpl in *.
  apply rows_set_In in Hin as [Hin | ->].
  - apply set_union_l. now apply (Hst key r).
  - apply dict_update_keys in Hp as [Hp | Hp]; [| now apply set_union_r].
    apply set_union_l.
    destruct (dict_get py_eqb (fst st) (fst kv)) as [cur |] eqn:Hcur;
      [| contradiction].
    apply rows_get_In in Hcur as [k' Hk']. now apply (Hst k' cur).
Qed.

Lemma merge_rows_covers properties : forall st,
  fields_cover st -> fields_cover (merge_rows st properties).
Proof.
  unfold merge_rows.
  induction properties as [| kv properties IH]; intros st H; simpl; [exact H |].
  apply IH. now apply merge_row_covers.
Qed.

Lemma try_property_parsers_covers _path defs st : forall parsers st',
  fields_cover st ->
  outcome (try_property_parsers parsers _path defs st) = inr (Some st') ->
  fields_cover st'.
Proof.
  induction parsers as [| parser rest IH]; intros st' Hst; [discriminate |].
  cbn [try_property_parsers]. rewrite outcome_tell.
  destruct (parser _path defs) as [e | properties]; [now apply IH |].
  simpl. intros [= <-]. now apply merge_rows_covers.
Qed.

Lemma parse_properties_covers property_matches_by_file defs st :
  outcome (parse_properties property_matches_by_file defs) = inr st ->
  fields_cover st.
Proof.
  unfold parse_properties.
  apply (foldM_invariant _ fields_cover property_matches_by_file);
    [| intros key r property []].
  intros a kv a' _ Ha.
  apply (foldM_invariant _ fields_cover (snd kv)); [| exact Ha].
  intros b _path b' _ Hb H. unfold parse_property_file in H.
  apply outcome_bind_inr in H as (parsers & _ & H).
  apply outcome_bind_inr in H as (r & Hr & H).
  destruct r as [st' |]; [| discriminate].
  simpl in H. injection H as <-.
  eapply try_property_parsers_covers; eassumption.
Qed.

Lemma Forall2_In_r A B (R : A -> B -> Prop) l1 l2 b :
  Forall2 R l1 l2 -> In b l2 -> exists a, In a l1 /\ R a b.
Proof.
  induction 1 as [| x y l1 l2 Hxy HF IH]; [contradiction |].
  intros [-> | H].
  - exists x. split; [now left | exact Hxy].
  - destruct (IH H) as (a & Ha & HR). exists a. split; [now right | exact HR].
Qed.

(** C1, as the code has it.  With no property files matched, assignment
    returns the entries as they are.  With property files, every entry of
    the result has, for every declared property name that occurs in some
    parsed property row, the key _<provider_prefix>_<name> in its attribute
    mapping (its value may be None). *)
Theorem declared_properties_found_in_files_are_on_every_entry :
  (forall optimade_entries property_definitions provider_prefix,
      _parse_and_assign_properties optimade_entries [] property_definitions
                                   provider_prefix
      = ret optimade_entries)
  /\ (forall optimade_entries property_matches_by_file property_definitions
             provider_prefix optimade_entries' st,
         property_matches_by_file <> [] ->
         outcome (parse_properties property_matches_by_file
                                   property_definitions) = inr st ->
         outcome (_parse_and_assign_properties optimade_entries
                    property_matches_by_file property_definitions
                    provider_prefix) = inr optimade_entries' ->
         forall id e pd key r,
           In (id, e) optimade_entries' ->
           In pd property_definitions ->
           In (key, r) (fst st) -> In (name pd) (dict_keys r) ->
           exists v,
             dict_get String.eqb (e_attributes e)
                      (prefixed provider_prefix (name pd)) = Some v).
Proof.
  split; [reflexivity |].
  intros optimade_entries property_matches_by_file property_definitions
         provider_prefix optimade_entries' st Hne Hst H id e pd key r
         Hin Hpd Hrow Hname.
  apply assignment_inversion in H as (st' & Hst' & _ & HF); [| exact Hne].
  rewrite Hst in Hst'. injection Hst' as <-.
  assert (Hfound : In (name pd) (snd st))
    by (eapply (parse_properties_covers _ _ Hst); eassumption).
  destruct (@Forall2_In_r _ _ _ _ _ (id, e) HF Hin) as (kv & _ & Hkv).
  apply assign_entry_inversion in Hkv as (attrs & Hl & [= _ ->]).
  destruct (@make_property_def_dict_complete property_definitions pd Hpd)
    as [pd' Hpd'].
  edestruct assign_loop_value as (v & _ & Hv);
    [exact Hl | exact Hfound | exact Hpd' |].
  exists v. exact Hv.
Qed.

(** ** Identifier reconciliation and casting *)

Lemma py_or_same v : py_or v v = v.
Proof. unfold py_or. now destruct (truthy v). Qed.

Lemma lookup_absent parsed_properties key property :
  dict_get py_eqb parsed_properties key = None ->
  lookup parsed_properties key property = VNone.
Proof. unfold lookup. now intros ->. Qed.

(** C9, as the code has it.  The two lookups are joined by [or]: when the
    value found under the key tried first is falsy (0, 0.0, False, the empty
    string, and None itself), it is dropped and the value is whatever the
    row under the full entry identifier holds for the property, None when
    there is none; the assignment is then the same as if the full identifier
    had been the only key looked up.  So the falsy value under the first key
    is the value assigned exactly when the lookup under the full identifier
    yields that same value, as it does when the first key is the full
    identifier itself. *)
Theorem falsy_value_falls_through_to_full_identifier
        parsed_properties property_def_dict provider_prefix id
        property_entry_id attrs property :
  truthy (lookup parsed_properties property_entry_id property) = false ->
  Forall (fun v => truthy v = false)
         [VInt 0; VFloat 0%Q; VBool false; VStr ""; VNone]
  /\ lookup_value parsed_properties property_entry_id id property
     = lookup parsed_properties (VStr id) property
  /\ (dict_get py_eqb parsed_properties (VStr id) = None ->
      lookup_value parsed_properties property_entry_id id property = VNone)
  /\ assign_property parsed_properties property_def_dict provider_prefix id
                     property_entry_id attrs property
     = assign_property parsed_properties property_def_dict provider_prefix id
                       (VStr id) attrs property
  /\ (lookup_value parsed_properties property_entry_id id property
      = lookup parsed_properties property_entry_id property
      <-> lookup parsed_properties (VStr id) property
          = lookup parsed_properties property_entry_id property)
  /\ (property_entry_id = VStr id ->
      lookup_value parsed_properties property_entry_id id property
      = lookup parsed_properties property_entry_id property).
Proof.
  intros H.
  assert (E : lookup_value parsed_properties property_entry_id id property
              = lookup parsed_properties (VStr id) property)
    by (unfold lookup_value, py_or; now rewrite H).
  split; [repeat constructor |]. split; [exact E |]. split; [| split].
  - intros Hid. rewrite E. now apply lookup_absent.
  - unfold assign_property. rewrite E.
    unfold lookup_value. now rewrite py_or_same.
  - rewrite E. split; [split |]; try (intros Heq; exact Heq).
    intros ->. reflexivity.
Qed.

(** Casting, where it happens.  When the value the two lookups yield (after
    their [or]) is not None and the declared type of the property is in
    [TYPE_MAP], it is cast before it is assigned: when the cast returns, the
    attribute holds the cast's result; when the cast raises, the exception
    is the outcome of the assignment, and every batch that contains such an
    entry fails instead of assigning None. *)
Theorem present_values_are_cast_before_assignment
        parsed_properties property_def_dict provider_prefix id
        property_entry_id attrs property pd cast :
  dict_get String.eqb property_def_dict property = Some pd ->
  is_None (lookup_value parsed_properties property_entry_id id property)
  = false ->
  dict_get String.eqb TYPE_MAP (type pd) = Some cast ->
  (forall v,
      cast (lookup_value parsed_properties property_entry_id id property)
      = inr v ->
      outcome (assign_property parsed_properties property_def_dict
                               provider_prefix id property_entry_id attrs
                               property)
      = inr (dict_set String.eqb attrs (prefixed provider_prefix property) v))
  /\ (forall e,
         cast (lookup_value parsed_properties property_entry_id id property)
         = inl e ->
         outcome (assign_property parsed_properties property_def_dict
                                  provider_prefix id property_entry_id attrs
                                  property) = inl e
         /\ forall all_property_fields (optimade_entries : dict string Entry)
                   entry,
             In property all_property_fields ->
             In (id, entry) optimade_entries ->
             property_entry_id_of id (e_attributes entry) = property_entry_id ->
             exists e',
               outcome (mapM (assign_entry parsed_properties
                                           all_property_fields
                                           property_def_dict provider_prefix)
                             optimade_entries) = inl e').
Proof.
  intros Hpd Hnone Hcast.
  assert (Hcv : cast_value pd (lookup_value parsed_properties
                                            property_entry_id id property)
                = cast (lookup_value parsed_properties property_entry_id
                                     id property))
    by (unfold cast_value; now rewrite Hnone, Hcast).
  split.
  - intros v Hv. rewrite assign_property_outcome, Hpd, Hcv, Hv. reflexivity.
  - intros e He. split.
    + rewrite assign_property_outcome, Hpd, Hcv, He. reflexivity.
    + intros fields entries entry Hin Hentry Hkey.
      apply mapM_fails with (a := (id, entry)); [exact Hentry |].
      unfold assign_entry. cbn [fst snd]. rewrite Hkey.
      destruct (@foldM_fails _ _ _
                  (assign_property parsed_properties property_def_dict
                                   provider_prefix id property_entry_id)
                  fields property Hin) with (a := e_attributes entry)
        as [e' He'].
      * intros a. exists e.
        rewrite assign_property_outcome, Hpd, Hcv, He. reflexivity.
      * exists e'. now apply outcome_bind_of_inl.
Qed.

Lemma assign_entry_value parsed_properties all_property_fields
      property_def_dict provider_prefix kv kv' property pd :
  outcome (assign_entry parsed_properties all_property_fields
                        property_def_dict provider_prefix kv) = inr kv' ->
  In property all_property_fields ->
  dict_get String.eqb property_def_dict property = Some pd ->
  exists v,
    cast_value pd (lookup_value parsed_properties
                     (property_entry_id_of (fst kv) (e_attributes (snd kv)))
                     (fst kv) property) = inr v
    /\ dict_get String.eqb (e_attributes (snd kv'))
                (prefixed provider_prefix property) = Some v.
Proof.
  intros H Hin Hpd.
  apply assign_entry_inversion in H as (attrs & Hl & ->).
  edestruct assign_loop_value as (v & Hv & Hget);
    [exact Hl | exact Hin | exact Hpd |].
  exists v. split; [exact Hv | exact Hget].
Qed.

(** C3, as the code has it.  The key tried first is the entry's
    [immutable_id] attribute when that is present and not None, and
    otherwise the last path segment of the entry identifier with its
    extension stripped (structures/foo.cif gives foo); after it the full
    entry identifier is tried.  For a declared property that is assigned:
    when the row under the first key holds a truthy value for it, that value
    supplies it; when the first key gives no value for it, the row under the
    full identifier supplies it; either way the value is cast as its
    definition says.  When neither the first key nor the full identifier is
    a key of the parsed rows, assignment of the entry succeeds and every
    declared property it assigns is None.  (A value under the first key that
    is there and falsy is not part of this statement.) *)
Theorem reconciliation_tries_first_key_then_full_identifier :
  (forall id attrs v,
      dict_get String.eqb attrs "immutable_id" = Some v -> v <> VNone ->
      property_entry_id_of id attrs = v)
  /\ (forall id attrs,
         dict_get String.eqb attrs "immutable_id" = None
         \/ dict_get String.eqb attrs "immutable_id" = Some VNone ->
         property_entry_id_of id attrs = VStr (filename_stem id))
  /\ filename_stem "structures/foo.cif" = "foo"
  /\ (forall parsed_properties all_property_fields property_def_dict
             provider_prefix kv kv' property pd,
         outcome (assign_entry parsed_properties all_property_fields
                               property_def_dict provider_prefix kv)
         = inr kv' ->
         In property all_property_fields ->
         dict_get String.eqb property_def_dict property = Some pd ->
         (truthy (lookup parsed_properties
                         (property_entry_id_of (fst kv) (e_attributes (snd kv)))
                         property) = true ->
          exists v,
            cast_value pd (lookup parsed_properties
                             (property_entry_id_of (fst kv)
                                                   (e_attributes (snd kv)))
                             property) = inr v
            /\ dict_get String.eqb (e_attributes (snd kv'))
                        (prefixed provider_prefix property) = Some v)
         /\ (lookup parsed_properties
                    (property_entry_id_of (fst kv) (e_attributes (snd kv)))
                    property = VNone ->
             exists v,
               cast_value pd (lookup parsed_properties (VStr (fst kv))
                                     property) = inr v
               /\ dict_get String.eqb (e_attributes (snd kv'))
                           (prefixed provider_prefix property) = Some v))
  /\ (forall parsed_properties all_property_fields property_def_dict
             provider_prefix kv,
         dict_get py_eqb parsed_properties
                  (property_entry_id_of (fst kv) (e_attributes (snd kv)))
         = None ->
         dict_get py_eqb parsed_properties (VStr (fst kv)) = None ->
         exists kv',
           outcome (assign_entry parsed_properties all_property_fields
                                 property_def_dict provider_prefix kv)
           = inr kv'
           /\ forall property pd,
               In property all_property_fields ->
               dict_get String.eqb property_def_dict property = Some pd ->
               dict_get String.eqb (e_attributes (snd kv'))
                        (prefixed provider_prefix property) = Some VNone).
Proof.
  repeat apply conj.
  - intros id attrs v Hv Hn. unfold property_entry_id_of. rewrite Hv.
    destruct v; simpl; congruence.
  - intros id attrs [H | H]; unfold property_entry_id_of; now rewrite H.
  - reflexivity.
  - intros parsed_properties fields pdd provider_prefix kv kv' property pd
           Hout Hin Hpd.
    destruct (assign_entry_value _ _ _ _ _ _ Hout Hin Hpd) as (v & Hv & Hget).
    unfold lookup_value, py_or in Hv.
    split; intros H; rewrite H in Hv; simpl in Hv; exists v;
      (split; [exact Hv | exact Hget]).
  - intros parsed_properties fields pdd provider_prefix kv Hkey Hid.
    set (pid := property_entry_id_of (fst kv) (e_attributes (snd kv))) in *.
    assert (Hval : forall property,
               lookup_value parsed_properties pid (fst kv) property = VNone).
    { intros property. unfold lookup_value.
      now rewrite !lookup_absent by assumption. }
    destruct (@foldM_succeeds _ _ _
                (assign_property parsed_properties pdd provider_prefix
                                 (fst kv) pid) fields) with
      (a := e_attributes (snd kv)) as [attrs Hattrs].
    { intros a b _. rewrite assign_property_outcome, Hval.
      destruct (dict_get String.eqb pdd b) as [pd |]; simpl; eauto. }
    exists (fst kv, set_attributes (snd kv) attrs).
    assert (Hout : outcome (assign_entry parsed_properties fields pdd
                                         provider_prefix kv)
                   = inr (fst kv, set_attributes (snd kv) attrs)).
    { unfold assign_entry. fold pid.
      now rewrite (outcome_bind_of_inr _ _ Hattrs). }
    split; [exact Hout |].
    intros property pd Hin Hpd.
    destruct (assign_entry_value _ _ _ _ _ _ Hout Hin Hpd) as (v & Hv & Hget).
    fold pid in Hv. rewrite Hval in Hv. simpl in Hv. injection Hv as <-.
    exact Hget.
Qed.

(** ** The file matcher *)

(** The outcome of matching: either a dictionary and an empty log, or the
    not-found error of a wildcard pattern without matches. *)
Definition matched_or_not_found (candidates : list string)
           (m : M event matches_dict) : Prop :=
  (exists d, m = ([], inr d))
  \/ (exists p, In p candidates /\ contains_star p = true /\ glob p = []
                /\ m = ([], inl (FileNotFoundError (WildcardNoMatch p)))).

Lemma match_patterns_outcome f : forall ms d,
  matched_or_not_found ms (match_patterns f ms d).
Proof.
  induction ms as [| m ms IH]; intros d; simpl.
  - left. now exists d.
  - assert (Hrest : forall d', matched_or_not_found (m :: ms)
                                 (match_patterns f ms d')).
    { intros d'. destruct (IH d') as [H | (p & Hin & Hp)]; [now left |].
      right. exists p. split; [now right | exact Hp]. }
    destruct (contains_star m) eqn:Hstar; [| apply Hrest].
    destruct (glob m) as [| x wildcard] eqn:Hglob; [| apply Hrest].
    right. exists m. repeat split; auto. now left.
Qed.

Lemma match_patterns_matched f : forall ms d d' l,
  match_patterns f ms d = (l, inr d') ->
  forall m, In m ms -> contains_star m = true -> glob m <> [].
Proof.
  induction ms as [| m0 ms IH]; intros d d' l H m Hin Hstar; [contradiction |].
  simpl in H. destruct Hin as [-> | Hin].
  - rewrite Hstar in H. destruct (glob m); [discriminate | discriminate].
  - destruct (contains_star m0); [| now apply (IH _ _ _ H)].
    destruct (glob m0); [discriminate | now apply (IH _ _ _ H)].
Qed.

Lemma match_path_outcome d path :
  names_its_file path ->
  matched_or_not_found (matches path) (match_path d path).
Proof.
  intros Hwf. unfold match_path.
  destruct (match_patterns_outcome (file path) (matches path) d)
    as [[d' ->] | (p & Hin & Hstar & Hglob & ->)].
  - left. rewrite bind_pure.
    destruct (matches path) eqn:Hm; [| now exists d'].
    destruct (file path) as [f |] eqn:Hf; [eexists; reflexivity |].
    now destruct (Hwf Hm).
  - right. exists p. repeat split; auto.
Qed.

Lemma get_matches_loop paths : forall d,
  Forall names_its_file paths ->
  (exists d', foldM match_path d paths = ([], inr d')
              /\ ~ unmatched_wildcard paths)
  \/ (exists m, contains_star m = true /\ glob m = []
                /\ foldM match_path d paths
                   = ([], inl (FileNotFoundError (WildcardNoMatch m)))).
Proof.
  induction paths as [| path paths IH]; intros d Hwf.
  - left. exists d. split; [reflexivity |].
    intros (p & m & [] & _).
  - inversion Hwf as [| ? ? Hpath Hrest]; subst. cbn [foldM].
    destruct (match_path_outcome d Hpath)
      as [[d1 H1] | (p & Hin & Hstar & Hglob & H1)].
    + rewrite H1, bind_pure.
      destruct (IH d1 Hrest) as [(d' & Hd' & Hno) | Hbad]; [| now right].
      left. exists d'. split; [exact Hd' |].
      intros (q & m & [<- | Hq] & Hm & Hstar & Hglob).
      * unfold match_path in H1.
        destruct (match_patterns (file path) (matches path) d)
          as [l [e | d2]] eqn:E;
          [discriminate |].
        now apply (@match_patterns_matched _ _ _ _ _ E m Hm Hstar).
      * apply Hno. exists q, m. auto.
    + right. exists p. rewrite H1. auto.
Qed.

Lemma get_matches_unmatched paths :
  Forall names_its_file paths -> unmatched_wildcard paths ->
  exists m, contains_star m = true /\ glob m = []
            /\ _get_matches paths
               = ([], inl (FileNotFoundError (WildcardNoMatch m))).
Proof.
  intros Hwf Hbad. unfold _get_matches.
  destruct (get_matches_loop [] Hwf) as [(d' & _ & Hno) | H];
    [contradiction | exact H].
Qed.

Lemma try_parsers_log _path : forall parsers,
  Forall (fun ev => exists p, ev = ParseEntry p)
         (log (try_parsers parsers _path)).
Proof.
  induction parsers as [| parser rest IH]; [constructor |].
  cbn [try_parsers]. unfold tell, bind.
  destruct (match parser _path with
            | inl _ => try_parsers rest _path
            | inr doc => if not_doc doc then try_parsers rest _path
                         else ret (Some doc)
            end) as [l r] eqn:E.
  simpl. constructor; [eauto |].
  destruct (parser _path) as [e | doc].
  - rewrite E in IH. exact IH.
  - destruct (not_doc doc).
    + rewrite E in IH. exact IH.
    + injection E as <- _. constructor.
Qed.

Lemma log_bind W A B (m : M W A) (f : A -> M W B) (P : W -> Prop) :
  Forall P (log m) -> (forall a, Forall P (log (f a))) ->
  Forall P (log (bind m f)).
Proof.
  intros Hm Hf. destruct m as [l [e | a]]; simpl in *; [exact Hm |].
  specialize (Hf a). destruct (f a) as [l' r]. simpl in *.
  apply Forall_app. auto.
Qed.

Lemma log_foldM W A B (f : A -> B -> M W A) (P : W -> Prop) (l : list B) :
  (forall a b, Forall P (log (f a b))) ->
  forall a, Forall P (log (foldM f a l)).
Proof.
  intros Hf. induction l as [| b l IH]; intros a; simpl; [constructor |].
  apply log_bind; auto.
Qed.

Lemma parse_entries_log matches_by_file entry_type :
  Forall (fun ev => exists p, ev = ParseEntry p)
         (log (_parse_entries matches_by_file entry_type)).
Proof.
  unfold _parse_entries. apply log_foldM. intros a kv.
  apply log_foldM. intros acc _path. unfold parse_file.
  apply log_bind; [destruct (relative_to _path); constructor |].
  intros rel. apply log_bind.
  - destruct (dict_get String.eqb ENTRY_PARSERS entry_type); constructor.
  - intros parsers. apply log_bind; [apply try_parsers_log |].
    intros [doc |]; constructor.
Qed.

(** C8, as the code has it.  A wildcard pattern whose expansion is empty
    makes [_get_matches] raise its not-found error; it is never skipped.
    In [construct_entries], for a supported entry type, such a pattern among
    the entry paths raises the error before any parser, converter or
    warning; such a pattern among the property paths raises it once the
    entry files have been matched, checked and parsed, so that the only
    calls made before it are those of the entry parsers. *)
Theorem unmatched_wildcard_raises_not_found :
  (forall paths,
      Forall names_its_file paths -> unmatched_wildcard paths ->
      exists m, contains_star m = true /\ glob m = []
                /\ _get_matches paths
                   = ([], inl (FileNotFoundError (WildcardNoMatch m))))
  /\ (forall entry_config provider_prefix,
         supported (entry_type entry_config) ->
         Forall names_its_file (entry_paths entry_config) ->
         unmatched_wildcard (entry_paths entry_config) ->
         exists m, contains_star m = true /\ glob m = []
                   /\ construct_entries entry_config provider_prefix
                      = ([], inl (FileNotFoundError (WildcardNoMatch m))))
  /\ (forall entry_config provider_prefix entry_matches_by_file pe l,
         supported (entry_type entry_config) ->
         Forall names_its_file (property_paths entry_config) ->
         unmatched_wildcard (property_paths entry_config) ->
         _get_matches (entry_paths entry_config)
         = ([], inr entry_matches_by_file) ->
         _check_missing entry_matches_by_file = ([], inr tt) ->
         _parse_entries entry_matches_by_file (entry_type entry_config)
         = (l, inr pe) ->
         exists m, contains_star m = true /\ glob m = []
                   /\ construct_entries entry_config provider_prefix
                      = (l, inl (FileNotFoundError (WildcardNoMatch m)))
                   /\ Forall (fun ev => exists p, ev = ParseEntry p) l).
Proof.
  repeat apply conj.
  - exact get_matches_unmatched.
  - intros entry_config provider_prefix [Hp Hc] Hwf Hbad.
    destruct (get_matches_unmatched Hwf Hbad) as (m & Hstar & Hglob & Hm).
    exists m. repeat split; auto. unfold construct_entries.
    destruct (dict_get String.eqb ENTRY_PARSERS (entry_type entry_config));
      [| contradiction].
    destruct (dict_get String.eqb OPTIMADE_CONVERTERS
                       (entry_type entry_config)); [| contradiction].
    rewrite Hm. reflexivity.
  - intros entry_config provider_prefix entry_matches_by_file pe l
           [Hp Hc] Hwf Hbad Hentry Hcheck Hparse.
    destruct (get_matches_unmatched Hwf Hbad) as (m & Hstar & Hglob & Hm).
    exists m. repeat split; auto.
    + unfold construct_entries.
      destruct (dict_get String.eqb ENTRY_PARSERS (entry_type entry_config));
        [| contradiction].
      destruct (dict_get String.eqb OPTIMADE_CONVERTERS
                         (entry_type entry_config)); [| contradiction].
      rewrite Hentry, bind_pure, Hcheck, bind_pure, Hparse, Hm.
      simpl. now rewrite app_nil_r.
    + pose proof (parse_entries_log entry_matches_by_file
                                    (entry_type entry_config)) as Hlog.
      now rewrite Hparse in Hlog.
Qed.

(** ** The entry converter *)

(** The duplicate check is on the derived identifier, the key of the output
    map: a derived identifier that is already a key raises. *)
Lemma derived_identifier_collision_raises converters property_definitions
      (optimade_entries : dict string Entry) ie entry :
  outcome (try_converters converters (fst ie) (snd ie) property_definitions)
  = inr (Some entry) ->
  dict_mem String.eqb optimade_entries (fst ie) = true ->
  outcome (construct_entry converters property_definitions optimade_entries ie)
  = inl (RuntimeError (DuplicateEntryId (fst ie))).
Proof.
  intros Hc Hmem. unfold construct_entry.
  rewrite (outcome_bind_of_inr _ _ Hc). now rewrite Hmem.
Qed.

Lemma dict_set_fresh_keys V (d : dict string V) k v :
  dict_mem String.eqb d k = false ->
  dict_keys (dict_set String.eqb d k v) = dict_keys d ++ [k].
Proof.
  unfold dict_mem, dict_keys. induction d as [| [k0 v0] d IH]; simpl;
    [reflexivity |].
  destruct (String.eqb k0 k); [discriminate |].
  intros H. simpl. now rewrite IH.
Qed.

Lemma dict_mem_keys V (d : dict string V) k :
  dict_mem String.eqb d k = false -> ~ In k (dict_keys d).
Proof.
  unfold dict_mem, dict_keys. intros H Hin.
  apply in_map_iff in Hin as ([k' v] & E & Hin). simpl in E. subst k'.
  apply In_dict_get in Hin as [v' Hv']. now rewrite Hv' in H.
Qed.

(** The keys of the output map, the derived identifiers, are pairwise
    distinct. *)
Lemma derived_identifiers_are_distinct converters property_definitions ies :
  forall (optimade_entries optimade_entries' : dict string Entry),
    NoDup (dict_keys optimade_entries) ->
    outcome (foldM (construct_entry converters property_definitions)
                   optimade_entries ies) = inr optimade_entries' ->
    NoDup (dict_keys optimade_entries').
Proof.
  intros d d' Hd H.
  apply (foldM_invariant (construct_entry converters property_definitions)
           (fun x : dict string Entry => NoDup (dict_keys x)) ies)
    with (a := d); [| exact Hd | exact H].
  intros a ie a' _ Ha Hs. unfold construct_entry in Hs.
  apply outcome_bind_inr in Hs as (r & _ & Hs).
  destruct r as [entry |]; [| discriminate].
  destruct (dict_mem String.eqb a (fst ie)) eqn:Hmem; [discriminate |].
  simpl in Hs. injection Hs as <-.
  rewrite dict_set_fresh_keys by exact Hmem.
  apply NoDup_app; [exact Ha | constructor; [intros [] | constructor] |].
  intros x Hx [<- | []]. now apply (dict_mem_keys _ _ Hmem).
Qed.

(** * Further properties of the pipeline *)

(** ** Dictionaries with a decidable key equality *)

Section KeyDict.
Variables K V : Type.
Variable eqb : K -> K -> bool.
Hypothesis eqb_eq : forall a b, eqb a b = true <-> a = b.

Lemma eqb_same a : eqb a a = true.
Proof using eqb_eq. now apply eqb_eq. Qed.

Lemma key_get_set_same (d : dict K V) k v :
  dict_get eqb (dict_set eqb d k v) k = Some v.
Proof using eqb_eq.
  induction d as [| [k' v'] d IH]; simpl.
  - now rewrite eqb_same.
  - destruct (eqb k' k) eqn:E; simpl; rewrite E; auto.
Qed.

Lemma key_get_set_other (d : dict K V) k v k' :
  k' <> k -> dict_get eqb (dict_set eqb d k v) k' = dict_get eqb d k'.
Proof using eqb_eq.
  intros Hne. induction d as [| [k0 v0] d IH]; simpl.
  - destruct (eqb k k') eqn:E; [| reflexivity].
    apply eqb_eq in E. congruence.
  - destruct (eqb k0 k) eqn:E; simpl.
    + apply eqb_eq in E. subst k0.
      destruct (eqb k k') eqn:E'; [| reflexivity].
      apply eqb_eq in E'. congruence.
    + destruct (eqb k0 k'); auto.
Qed.

Lemma key_set_keys_NoDup (d : dict K V) k v :
  NoDup (dict_keys d) -> NoDup (dict_keys (dict_set eqb d k v)).
Proof using eqb_eq.
  unfold dict_keys. induction d as [| [k0 v0] d IH]; simpl; intros H.
  - constructor; [intros [] | constructor].
  - inversion H as [| ? ? Hnot Hrest]; subst.
    destruct (eqb k0 k) eqn:E; simpl; [now constructor |].
    constructor; [| now apply IH].
    intros Hin. apply Hnot. clear IH H Hrest Hnot.
    induction d as [| [k1 v1] d IH]; simpl in *.
    + destruct Hin as [<- | []]. rewrite eqb_same in E. discriminate.
    + destruct (eqb k1 k); simpl in Hin; [exact Hin |].
      destruct Hin as [<- | Hin]; [now left | right; now apply IH].
Qed.

End KeyDict.

Lemma opt_eqb_eq a b : opt_eqb a b = true <-> a = b.
Proof.
  destruct a as [s |], b as [t |]; simpl; split; try congruence.
  - intros H. apply String.eqb_eq in H. now subst.
  - intros [= ->]. apply String.eqb_refl.
Qed.

(** ** [_get_matches] groups the matched paths by sub-archive name *)

(** What one path specification contributes: the expansion of each wildcard
    pattern and the path of each literal pattern, in order, or the file
    itself when there are no patterns.  (A specification with neither
    patterns nor a file makes [_get_matches] raise, so the empty list given
    for it here is never part of a returned result.) *)
Definition expansion (path : ParsedFiles) : list Path :=
  match matches path with
  | [] => match file path with
          | Some f => [joinpath f]
          | None => []
          end
  | ms => flat_map (fun m => if contains_star m then glob m else [joinpath m]) ms
  end.

(** [matches_by_file[k]] on the [defaultdict(list)], without inserting. *)
Definition matched_under (d : matches_dict) (k : option string) : list Path :=
  match dict_get opt_eqb d k with
  | Some l => l
  | None => []
  end.

Lemma extend_matched_under d f l k :
  matched_under (extend d f l) k
  = if opt_eqb f k then matched_under d k ++ l else matched_under d k.
Proof.
  unfold matched_under, extend.
  destruct (opt_eqb f k) eqn:E.
  - apply opt_eqb_eq in E. subst k.
    destruct (dict_get opt_eqb d f) as [old |];
      now rewrite (key_get_set_same opt_eqb opt_eqb_eq).
  - assert (Hne : k <> f).
    { intros ->. rewrite (eqb_same opt_eqb opt_eqb_eq) in E. discriminate. }
    destruct (dict_get opt_eqb d f) as [old |];
      now rewrite (key_get_set_other opt_eqb opt_eqb_eq) by exact Hne.
Qed.

Lemma extend_mem d f l k :
  dict_mem opt_eqb (extend d f l) k = dict_mem opt_eqb d k || opt_eqb f k.
Proof.
  unfold dict_mem, extend.
  destruct (opt_eqb f k) eqn:E.
  - apply opt_eqb_eq in E. subst k. rewrite orb_true_r.
    destruct (dict_get opt_eqb d f) as [old |];
      now rewrite (key_get_set_same opt_eqb opt_eqb_eq).
  - assert (Hne : k <> f).
    { intros ->. rewrite (eqb_same opt_eqb opt_eqb_eq) in E. discriminate. }
    rewrite orb_false_r.
    destruct (dict_get opt_eqb d f) as [old |];
      now rewrite (key_get_set_other opt_eqb opt_eqb_eq) by exact Hne.
Qed.

Lemma extend_keys_NoDup d f l :
  NoDup (dict_keys d) -> NoDup (dict_keys (extend d f l)).
Proof.
  unfold extend. destruct (dict_get opt_eqb d f);
    apply (key_set_keys_NoDup opt_eqb opt_eqb_eq).
Qed.

Lemma match_patterns_groups f : forall ms d d' l,
  match_patterns f ms d = (l, inr d') ->
  (forall k,
      matched_under d' k
      = matched_under d k
        ++ (if opt_eqb f k
            then flat_map (fun m => if contains_star m then glob m
                                    else [joinpath m]) ms
            else []))
  /\ (forall k, dict_mem opt_eqb d' k
                = dict_mem opt_eqb d k
                  || (match ms with [] => false | _ => opt_eqb f k end))
  /\ (NoDup (dict_keys d) -> NoDup (dict_keys d')).
Proof.
  induction ms as [| m ms IH]; intros d d' l H.
  - simpl in H. injection H as _ <-. repeat split; auto.
    + intros k. destruct (opt_eqb f k); now rewrite app_nil_r.
    + intros k. now rewrite orb_false_r.
  - simpl in H.
    assert (Hstep : forall items,
               match_patterns f ms (extend d f items) = (l, inr d') ->
               (if contains_star m then glob m else [joinpath m]) = items ->
               (forall k,
                   matched_under d' k
                   = matched_under d k
                     ++ (if opt_eqb f k
                         then flat_map (fun m => if contains_star m then glob m
                                                 else [joinpath m]) (m :: ms)
                         else []))
               /\ (forall k, dict_mem opt_eqb d' k
                             = dict_mem opt_eqb d k || opt_eqb f k)
               /\ (NoDup (dict_keys d) -> NoDup (dict_keys d'))).
    { intros items Hrec Hitems. apply IH in Hrec as (Hm & Hk & Hn).
      repeat split.
      - intros k. rewrite Hm, extend_matched_under. simpl. rewrite Hitems.
        destruct (opt_eqb f k); [now rewrite app_assoc | reflexivity].
      - intros k. rewrite Hk, extend_mem.
        destruct ms; destruct (dict_mem opt_eqb d k), (opt_eqb f k); reflexivity.
      - intros Hd. apply Hn. now apply extend_keys_NoDup. }
    destruct (contains_star m) eqn:Hstar.
    + destruct (glob m) as [| x wildcard] eqn:Hglob; [discriminate |].
      now apply (Hstep (x :: wildcard)).
    + now apply (Hstep [joinpath m]).
Qed.

Lemma match_path_groups d d' l path :
  match_path d path = (l, inr d') ->
  (forall k,
      matched_under d' k
      = matched_under d k ++ (if opt_eqb (file path) k then expansion path
                              else []))
  /\ (forall k, dict_mem opt_eqb d' k
                = dict_mem opt_eqb d k || opt_eqb (file path) k)
  /\ (NoDup (dict_keys d) -> NoDup (dict_keys d')).
Proof.
  unfold match_path, expansion. intros H.
  destruct (match_patterns (file path) (matches path) d) as [l1 [e | d1]] eqn:E;
    [discriminate |].
  apply match_patterns_groups in E as (Hm & Hk & Hn).
  destruct (matches path) as [| m ms] eqn:Hms.
  - destruct (file path) as [f |] eqn:Hf; [| discriminate].
    simpl in H. injection H as _ <-. repeat split.
    + intros k. rewrite extend_matched_under, Hm.
      destruct (opt_eqb (Some f) k); now rewrite ?app_nil_r.
    + intros k. rewrite extend_mem, Hk. now rewrite orb_false_r.
    + intros Hd. apply extend_keys_NoDup. now apply Hn.
  - simpl in H. injection H as _ <-. repeat split; auto.
Qed.

(** The sub-archive names of the path specifications, and the
    specifications under one name. *)
Definition under (k : option string) (paths : list ParsedFiles)
  : list ParsedFiles :=
  filter (fun path => opt_eqb (file path) k) paths.

Lemma get_matches_loop_groups paths : forall d d' l,
  foldM match_path d paths = (l, inr d') ->
  (forall k,
      matched_under d' k
      = matched_under d k ++ flat_map expansion (under k paths))
  /\ (forall k, dict_mem opt_eqb d' k
                = dict_mem opt_eqb d k
                  || existsb (fun path => opt_eqb (file path) k) paths)
  /\ (NoDup (dict_keys d) -> NoDup (dict_keys d')).
Proof.
  induction paths as [| path paths IH]; intros d d' l H.
  - simpl in H. injection H as _ <-. repeat split; auto.
    + intros k. simpl. now rewrite app_nil_r.
    + intros k. simpl. now rewrite orb_false_r.
  - cbn [foldM] in H.
    destruct (match_path d path) as [l1 [e | d1]] eqn:E; [discriminate |].
    apply match_path_groups in E as (Hm1 & Hk1 & Hn1).
    assert (Hrest : exists l2, foldM match_path d1 paths = (l2, inr d')).
    { simpl in H. destruct (foldM match_path d1 paths) as [l2 r].
      injection H as _ ->. now exists l2. }
    destruct Hrest as [l2 Hrest].
    apply IH in Hrest as (Hm & Hk & Hn). repeat split.
    + intros k. rewrite Hm, Hm1. unfold under. simpl.
      destruct (opt_eqb (file path) k); simpl;
        now rewrite <- ?app_assoc, ?app_nil_r.
    + intros k. rewrite Hk, Hk1. simpl. now rewrite orb_assoc.
    + auto.
Qed.

(** X1. When [_get_matches] returns, the list under each sub-archive name is
    what the path specifications with that name contribute, one after the
    other in configuration order (wildcard expansions as [glob] gave them,
    literal patterns whether or not the file exists); the names that are
    keys are exactly the names of the specifications, each key once. *)
Theorem get_matches_groups_paths_by_file paths d l :
  _get_matches paths = (l, inr d) ->
  (forall k, matched_under d k = flat_map expansion (under k paths))
  /\ (forall k, dict_mem opt_eqb d k = true
                <-> exists path, In path paths /\ file path = k)
  /\ NoDup (dict_keys d).
Proof.
  unfold _get_matches. intros H.
  apply get_matches_loop_groups in H as (Hm & Hk & Hn). repeat split.
  - intros k. now rewrite Hm.
  - rewrite Hk. simpl. rewrite existsb_exists.
    intros (path & Hin & E). apply opt_eqb_eq in E. eauto.
  - intros (path & Hin & E). rewrite Hk. simpl. apply existsb_exists.
    exists path. split; [exact Hin | now apply opt_eqb_eq].
  - apply Hn. constructor.
Qed.

(** ** [_check_missing] *)

Lemma match_patterns_log f : forall ms d, log (match_patterns f ms d) = [].
Proof.
  induction ms as [| m ms IH]; intros d; simpl; [reflexivity |].
  destruct (contains_star m); [| apply IH].
  destruct (glob m); [reflexivity | apply IH].
Qed.

Lemma get_matches_log paths : log (_get_matches paths) = [].
Proof.
  unfold _get_matches. generalize (@nil (option string * list Path)).
  induction paths as [| path paths IH]; intros d; [reflexivity |].
  cbn [foldM].
  assert (Hp : log (match_path d path) = []).
  { unfold match_path.
    pose proof (match_patterns_log (file path) (matches path) d) as Hl.
    destruct (match_patterns (file path) (matches path) d) as [l [e | d1]];
      simpl in *; [exact Hl |]. subst l.
    destruct (matches path); [destruct (file path) |]; reflexivity. }
  destruct (match_path d path) as [l [e | d1]]; simpl in *; [exact Hp |].
  subst l. specialize (IH d1).
  destruct (foldM match_path d1 paths) as [l2 r]. simpl in *. exact IH.
Qed.

Lemma missing_paths_nil matches_by_file :
  missing_paths matches_by_file = []
  <-> forall k l p, In (k, l) matches_by_file -> In p l -> path_exists p = true.
Proof.
  unfold missing_paths, dict_values. split.
  - intros H k l p Hkl Hp.
    destruct (path_exists p) eqn:E; [reflexivity | exfalso].
    assert (Hin : In p (filter (fun p => negb (path_exists p))
                               (concat (map snd matches_by_file)))).
    { apply filter_In. split; [| now rewrite E].
      apply in_concat. exists l. split; [| exact Hp].
      apply in_map_iff. now exists (k, l). }
    rewrite H in Hin. exact Hin.
  - intros H.
    destruct (filter (fun p => negb (path_exists p))
                     (concat (map snd matches_by_file))) as [| p rest] eqn:E;
      [reflexivity | exfalso].
    assert (Hin : In p (p :: rest)) by now left.
    rewrite <- E in Hin. apply filter_In in Hin as [Hin Hp].
    apply in_concat in Hin as (l & Hl & Hpl).
    apply in_map_iff in Hl as ([k l'] & <- & Hkl).
    rewrite (H k l' p Hkl Hpl) in Hp. discriminate.
Qed.

(** X2. [_check_missing] returns exactly when every matched path exists,
    and otherwise raises its one not-found error; in [construct_entries] a
    matched entry path that does not exist raises that error before any
    parser or converter is called. *)
Theorem missing_files_are_reported_before_parsing :
  (forall matches_by_file,
      _check_missing matches_by_file = ([], inr tt)
      <-> forall k l p, In (k, l) matches_by_file -> In p l ->
                        path_exists p = true)
  /\ (forall matches_by_file k l p,
         In (k, l) matches_by_file -> In p l -> path_exists p = false ->
         _check_missing matches_by_file
         = ([], inl (FileNotFoundError MissingFiles)))
  /\ (forall entry_config provider_prefix matches_by_file k l p,
         supported (entry_type entry_config) ->
         outcome (_get_matches (entry_paths entry_config))
         = inr matches_by_file ->
         In (k, l) matches_by_file -> In p l -> path_exists p = false ->
         construct_entries entry_config provider_prefix
         = ([], inl (FileNotFoundError MissingFiles))).
Proof.
  assert (Hmiss : forall matches_by_file k l p,
             In (k, l) matches_by_file -> In p l -> path_exists p = false ->
             _check_missing matches_by_file
             = ([], inl (FileNotFoundError MissingFiles))).
  { intros d k l p Hkl Hp He. unfold _check_missing.
    destruct (missing_paths d) eqn:E; [| reflexivity].
    apply missing_paths_nil with (k := k) (l := l) (p := p) in E;
      [congruence | exact Hkl | exact Hp]. }
  repeat apply conj.
  - intros d. rewrite <- missing_paths_nil. unfold _check_missing.
    destruct (missing_paths d); split; intros H; try reflexivity;
      discriminate.
  - exact Hmiss.
  - intros entry_config provider_prefix d k l p [Hp Hc] Hget Hkl Hin He.
    unfold construct_entries.
    destruct (dict_get String.eqb ENTRY_PARSERS (entry_type entry_config));
      [| contradiction].
    destruct (dict_get String.eqb OPTIMADE_CONVERTERS
                       (entry_type entry_config)); [| contradiction].
    rewrite (M_eta (_get_matches (entry_paths entry_config))).
    rewrite get_matches_log, Hget, bind_pure.
    rewrite (Hmiss d k l p Hkl Hin He). reflexivity.
Qed.

(** ** Parser fail-over *)

(** The parser raises on the file, or returns an empty result. *)
Definition parser_fails (parser : entry_parser) (_path : Path) : Prop :=
  match parser _path with
  | inl _ => True
  | inr doc => not_doc doc = true
  end.

Lemma try_parsers_skips_failing before _path parsers :
  (forall q, In q before -> parser_fails q _path) ->
  try_parsers (before ++ parsers) _path
  = (repeat (ParseEntry _path) (length before)
       ++ log (try_parsers parsers _path),
     outcome (try_parsers parsers _path)).
Proof.
  induction before as [| q before IH]; intros Hfail.
  - simpl. apply M_eta.
  - cbn [app try_parsers length repeat].
    assert (Hq : parser_fails q _path) by (apply Hfail; now left).
    assert (Hrest : (match q _path with
                     | inl _ => try_parsers (before ++ parsers) _path
                     | inr doc => if not_doc doc
                                  then try_parsers (before ++ parsers) _path
                                  else ret (Some doc)
                     end) = try_parsers (before ++ parsers) _path).
    { unfold parser_fails in Hq. destruct (q _path) as [e | doc];
        [reflexivity | now rewrite Hq]. }
    rewrite Hrest, IH by (intros q' Hq'; apply Hfail; now right).
    reflexivity.
Qed.

(** X3. The parsers registered for an entry type are tried in order and the
    first one that returns a non-empty result wins: the parsers before it
    are each called once, those after it are not called at all.  When every
    parser raises or returns an empty result, each is called once and the
    file fails with the no-parser error. *)
Theorem first_successful_parser_wins :
  (forall before parser after _path doc,
      (forall q, In q before -> parser_fails q _path) ->
      parser _path = inr doc -> not_doc doc = false ->
      try_parsers (before ++ parser :: after) _path
      = (repeat (ParseEntry _path) (S (length before)), inr (Some doc)))
  /\ (forall entry_type archive_file n_matches acc _path parsers
             path_in_archive,
         relative_to _path = inr path_in_archive ->
         dict_get String.eqb ENTRY_PARSERS entry_type = Some parsers ->
         (forall q, In q parsers -> parser_fails q _path) ->
         parse_file entry_type archive_file n_matches acc _path
         = (repeat (ParseEntry _path) (length parsers),
            inl (RuntimeError NoParserSucceeded))).
Proof.
  split.
  - intros before parser after _path doc Hfail Hp Hn.
    rewrite try_parsers_skips_failing by exact Hfail.
    cbn [try_parsers]. rewrite Hp, Hn. simpl.
    f_equal. rewrite <- repeat_cons. reflexivity.
  - intros entry_type archive_file n_matches acc _path parsers rel
           Hrel Hps Hfail.
    pose proof (try_parsers_skips_failing parsers _path [] Hfail) as H.
    rewrite app_nil_r in H.
    unfold parse_file. rewrite Hrel, Hps. unfold lift, ret, raise, bind.
    rewrite H. simpl. now rewrite !app_nil_r.
Qed.

(** ** Identifiers and documents stay aligned *)

Lemma ids_of_length id_root doc :
  length (ids_of id_root doc) = length (docs_of doc).
Proof.
  destruct doc as [d | ds]; simpl; [reflexivity |].
  now rewrite length_map, length_seq.
Qed.

Lemma parse_file_inversion entry_type archive_file n_matches acc _path acc' :
  outcome (parse_file entry_type archive_file n_matches acc _path) = inr acc' ->
  exists id_root doc,
    acc' = (fst acc ++ docs_of doc, snd acc ++ ids_of id_root doc).
Proof.
  unfold parse_file. intros H.
  apply outcome_bind_inr in H as (rel & _ & H).
  apply outcome_bind_inr in H as (parsers & _ & H).
  apply outcome_bind_inr in H as (r & _ & H).
  destruct r as [doc |]; [| discriminate].
  simpl in H. injection H as <-. eauto.
Qed.

Lemma parse_entries_invariant (P : list Doc * list string -> Prop)
      matches_by_file entry_type :
  P ([], []) ->
  (forall archive_file n_matches acc _path acc',
      P acc ->
      outcome (parse_file entry_type archive_file n_matches acc _path)
      = inr acc' -> P acc') ->
  forall r, outcome (_parse_entries matches_by_file entry_type) = inr r -> P r.
Proof.
  intros H0 Hstep r. unfold _parse_entries.
  apply (foldM_invariant _ P matches_by_file); [| exact H0].
  intros a kv a' _ Ha.
  apply (foldM_invariant _ P (snd kv)); [| exact Ha].
  intros b _path b' _ Hb Hs. exact (Hstep _ _ _ _ _ Hb Hs).
Qed.

(** X4. [_parse_entries] returns as many identifiers as documents, so that
    pairing them up in [construct_entries] drops neither. *)
Theorem parsed_entries_and_ids_align matches_by_file entry_type docs ids :
  outcome (_parse_entries matches_by_file entry_type) = inr (docs, ids) ->
  length docs = length ids
  /\ length (combine ids docs) = length docs.
Proof.
  intros H.
  assert (Hlen : length docs = length ids).
  { apply (parse_entries_invariant
             (fun acc => length (fst acc) = length (snd acc))
             matches_by_file entry_type) in H; [exact H | reflexivity |].
    intros archive_file n_matches acc _path acc' Hacc Hs.
    apply parse_file_inversion in Hs as (id_root & doc & ->). simpl.
    now rewrite !length_app, ids_of_length, Hacc. }
  split; [exact Hlen |].
  rewrite length_combine, Hlen. apply Nat.min_id.
Qed.

Lemma to_uint_not_Nil n : Nat.to_uint n <> Decimal.Nil.
Proof.
  intros H. pose proof (DecimalNat.Unsigned.of_to n) as E.
  rewrite H in E. simpl in E. subst n. discriminate H.
Qed.

Lemma str_of_nat_inj a b : str_of_nat a = str_of_nat b -> a = b.
Proof.
  unfold str_of_nat. intros H.
  apply DecimalNat.Unsigned.to_uint_inj.
  pose proof (@NilZero.usu (Nat.to_uint a) (to_uint_not_Nil a)) as Ha.
  pose proof (@NilZero.usu (Nat.to_uint b) (to_uint_not_Nil b)) as Hb.
  rewrite H in Ha. rewrite Ha in Hb. now injection Hb.
Qed.

Lemma append_inj_l (p a b : string) : (p ++ a = p ++ b)%string -> a = b.
Proof.
  induction p as [| c p IH]; simpl; [auto |]. intros [= H]. auto.
Qed.

Lemma NoDup_map_injective A B (f : A -> B) (l : list A) :
  (forall x y, f x = f y -> x = y) -> NoDup l -> NoDup (map f l).
Proof.
  intros Hinj. induction 1 as [| x l Hx Hl IH]; simpl; constructor; auto.
  intros Hin. apply in_map_iff in Hin as (y & E & Hy).
  apply Hinj in E. now subst.
Qed.

(** X5. The identifiers derived for the documents of one file are pairwise
    distinct: a file that parses to a list of documents never trips the
    duplicate check on its own. *)
Theorem identifiers_of_one_file_are_distinct id_root doc :
  NoDup (ids_of id_root doc).
Proof.
  destruct doc as [d | ds]; simpl.
  - constructor; [intros [] | constructor].
  - apply NoDup_map_injective; [| apply seq_NoDup].
    intros x y E. apply append_inj_l in E.
    change (("/" ++ str_of_nat x)%string = ("/" ++ str_of_nat y)%string) in E.
    apply (append_inj_l "/") in E. now apply str_of_nat_inj.
Qed.

(** ** [construct_entries]: keys and identifiers of the output map *)

Lemma not_in_keys_not_mem V (d : dict string V) k :
  ~ In k (dict_keys d) -> dict_mem String.eqb d k = false.
Proof.
  unfold dict_mem. intros Hnot.
  destruct (dict_get String.eqb d k) as [v |] eqn:E; [| reflexivity].
  exfalso. apply Hnot. apply dict_get_In in E.
  unfold dict_keys. apply in_map_iff. now exists (k, v).
Qed.

(** What the converters made of a document, with the derived identifier
    filled in when the converter gave none. *)
Definition with_identifier (entry_id : string) (entry : Entry) : Entry :=
  if truthy (e_id entry) then entry else set_id entry (VStr entry_id).

Lemma construct_entry_inversion converters property_definitions
      (optimade_entries optimade_entries' : dict string Entry) ie :
  outcome (construct_entry converters property_definitions optimade_entries ie)
  = inr optimade_entries' ->
  exists entry,
    outcome (try_converters converters (fst ie) (snd ie) property_definitions)
    = inr (Some entry)
    /\ dict_mem String.eqb optimade_entries (fst ie) = false
    /\ optimade_entries'
       = dict_set String.eqb optimade_entries (fst ie)
                  (with_identifier (fst ie) entry).
Proof.
  unfold construct_entry. intros H.
  apply outcome_bind_inr in H as (r & Hr & H).
  destruct r as [entry |]; [| discriminate].
  exists entry. split; [exact Hr |].
  destruct (dict_mem String.eqb optimade_entries (fst ie)); [discriminate |].
  simpl in H. injection H as <-. split; reflexivity.
Qed.

Lemma construct_loop_keys converters property_definitions ies :
  forall (d d' : dict string Entry),
    outcome (foldM (construct_entry converters property_definitions) d ies)
    = inr d' ->
    dict_keys d' = dict_keys d ++ map fst ies.
Proof.
  induction ies as [| ie ies IH]; intros d d' H.
  - simpl in H. injection H as <-. now rewrite app_nil_r.
  - simpl in H. apply outcome_bind_inr in H as (d1 & H1 & H2).
    apply construct_entry_inversion in H1 as (entry & _ & Hmem & ->).
    rewrite (IH _ _ H2), dict_set_fresh_keys by exact Hmem.
    simpl. now rewrite <- app_assoc.
Qed.

(** Property assignment keeps the keys of the map and the identifiers of
    the records. *)
Lemma assignment_keeps_keys_and_ids optimade_entries property_matches_by_file
      property_definitions provider_prefix optimade_entries' :
  outcome (_parse_and_assign_properties optimade_entries
             property_matches_by_file property_definitions provider_prefix)
  = inr optimade_entries' ->
  Forall2 (fun kv kv' : string * Entry =>
             fst kv' = fst kv /\ e_id (snd kv') = e_id (snd kv))
          optimade_entries optimade_entries'.
Proof.
  intros H. destruct property_matches_by_file as [| m ms] eqn:Hpm.
  - simpl in H. injection H as <-.
    induction optimade_entries; constructor; auto.
  - rewrite <- Hpm in H. apply assignment_inversion in H; [| congruence].
    destruct H as (st & _ & _ & HF).
    eapply Forall2_impl; [| exact HF].
    intros kv kv' Hkv.
    apply assign_entry_inversion in Hkv as (attrs & _ & ->). auto.
Qed.

Lemma construct_entries_inversion entry_config provider_prefix
      (optimade_entries : dict string Entry) :
  outcome (construct_entries entry_config provider_prefix)
  = inr optimade_entries ->
  exists converters entry_matches_by_file docs ids property_matches_by_file
         converted,
    dict_get String.eqb OPTIMADE_CONVERTERS (entry_type entry_config)
    = Some converters
    /\ outcome (_get_matches (entry_paths entry_config))
       = inr entry_matches_by_file
    /\ outcome (_check_missing entry_matches_by_file) = inr tt
    /\ outcome (_parse_entries entry_matches_by_file (entry_type entry_config))
       = inr (docs, ids)
    /\ outcome (_get_matches (property_paths entry_config))
       = inr property_matches_by_file
    /\ outcome (_check_missing property_matches_by_file) = inr tt
    /\ outcome (foldM (construct_entry converters
                                       (property_definitions entry_config))
                      [] (combine ids docs)) = inr converted
    /\ outcome (_parse_and_assign_properties
                  converted property_matches_by_file
                  (property_definitions entry_config) provider_prefix)
       = inr optimade_entries.
Proof.
  unfold construct_entries. intros H.
  destruct (dict_get String.eqb ENTRY_PARSERS (entry_type entry_config));
    [| discriminate].
  destruct (dict_get String.eqb OPTIMADE_CONVERTERS (entry_type entry_config))
    as [converters |]; [| discriminate].
  apply outcome_bind_inr in H as (m & Hm & H).
  apply outcome_bind_inr in H as ([] & Hc & H).
  apply outcome_bind_inr in H as ([docs ids] & Hpe & H).
  apply outcome_bind_inr in H as (pm & Hpm & H).
  apply outcome_bind_inr in H as ([] & Hpc & H).
  apply outcome_bind_inr in H as (converted & Hconv & H).
  exists converters, m, docs, ids, pm, converted.
  repeat split; assumption.
Qed.

Lemma map_fst_combine A B (l : list A) (r : list B) :
  length l = length r -> map fst (combine l r) = l.
Proof.
  revert r. induction l as [| a l IH]; intros [| b r]; simpl; try discriminate;
    [reflexivity |].
  intros [= H]. now rewrite IH.
Qed.

Lemma Forall2_map_fst A B (l l' : list (A * B)) (P : B -> B -> Prop) :
  Forall2 (fun kv kv' => fst kv' = fst kv /\ P (snd kv) (snd kv')) l l' ->
  map fst l' = map fst l.
Proof.
  induction 1 as [| x y l l' [E _] HF IH]; simpl; [reflexivity |].
  now rewrite E, IH.
Qed.

(** X6. A successful [construct_entries] returns one record for each parsed
    document, keyed by the derived identifiers in the order the documents
    were parsed; the keys are pairwise distinct (a repeated derived
    identifier cannot get through). *)
Theorem construct_entries_keys_are_the_derived_identifiers
        entry_config provider_prefix (optimade_entries : dict string Entry) :
  outcome (construct_entries entry_config provider_prefix)
  = inr optimade_entries ->
  exists entry_matches_by_file docs ids,
    outcome (_get_matches (entry_paths entry_config))
    = inr entry_matches_by_file
    /\ outcome (_parse_entries entry_matches_by_file (entry_type entry_config))
       = inr (docs, ids)
    /\ dict_keys optimade_entries = ids
    /\ length optimade_entries = length docs
    /\ NoDup ids.
Proof.
  intros H.
  apply construct_entries_inversion in H
    as (converters & m & docs & ids & pm & converted
        & _ & Hm & _ & Hpe & _ & _ & Hconv & Hassign).
  exists m, docs, ids. split; [exact Hm |]. split; [exact Hpe |].
  assert (Hlen : length ids = length docs).
  { apply (parse_entries_invariant
             (fun acc => length (snd acc) = length (fst acc))
             m (entry_type entry_config)) in Hpe; [exact Hpe | reflexivity |].
    intros archive_file n_matches acc _path acc' Hacc Hs.
    apply parse_file_inversion in Hs as (id_root & doc & ->). simpl.
    now rewrite !length_app, ids_of_length, Hacc. }
  pose proof (construct_loop_keys _ _ _ _ Hconv) as Hkeys. simpl in Hkeys.
  rewrite (map_fst_combine _ _ Hlen) in Hkeys.
  apply assignment_keeps_keys_and_ids in Hassign.
  assert (Hk : dict_keys optimade_entries = ids).
  { unfold dict_keys in *. rewrite <- Hkeys.
    apply (@Forall2_map_fst _ _ _ _ (fun e e' : Entry => e_id e' = e_id e)).
    exact Hassign. }
  split; [exact Hk |]. split.
  - rewrite <- Hlen, <- Hk. unfold dict_keys. now rewrite length_map.
  - rewrite <- Hkeys.
    eapply derived_identifiers_are_distinct; [| exact Hconv]. constructor.
Qed.

Lemma construct_loop_records converters property_definitions ies :
  forall (d d' : dict string Entry),
    outcome (foldM (construct_entry converters property_definitions) d ies)
    = inr d' ->
    forall k e,
      In (k, e) d' ->
      In (k, e) d
      \/ exists doc entry,
          In (k, doc) ies
          /\ outcome (try_converters converters k doc property_definitions)
             = inr (Some entry)
          /\ e = with_identifier k entry.
Proof.
  induction ies as [| ie ies IH]; intros d d' H k e Hin.
  - simpl in H. injection H as <-. now left.
  - simpl in H. apply outcome_bind_inr in H as (d1 & H1 & H2).
    apply construct_entry_inversion in H1 as (entry & Hentry & _ & ->).
    destruct (IH _ _ H2 k e Hin) as [Hd | (doc & entry' & Hdoc & He & ->)].
    + apply dict_set_In in Hd as [Hd | [-> ->]]; [now left |].
      right. exists (snd ie), entry. split; [| split].
      * left. now destruct ie.
      * exact Hentry.
      * reflexivity.
    + right. exists doc, entry'. split; [now right |]. split; [exact He |].
      reflexivity.
Qed.

(** X7. In the result of [construct_entries] every record stems from a
    parsed document and the derived identifier paired with it, which is the
    key the record is stored under: its identifier is the one the registered
    converters returned for that document when that one is truthy, and is
    the derived identifier otherwise. *)
Theorem record_identifier_is_supplied_or_derived
        entry_config provider_prefix (optimade_entries : dict string Entry) :
  outcome (construct_entries entry_config provider_prefix)
  = inr optimade_entries ->
  forall k e,
    In (k, e) optimade_entries ->
    exists entry_matches_by_file docs ids converters doc entry,
      outcome (_get_matches (entry_paths entry_config))
      = inr entry_matches_by_file
      /\ outcome (_parse_entries entry_matches_by_file
                                 (entry_type entry_config))
         = inr (docs, ids)
      /\ In (k, doc) (combine ids docs)
      /\ dict_get String.eqb OPTIMADE_CONVERTERS (entry_type entry_config)
         = Some converters
      /\ outcome (try_converters converters k doc
                                 (property_definitions entry_config))
         = inr (Some entry)
      /\ (truthy (e_id entry) = true -> e_id e = e_id entry)
      /\ (truthy (e_id entry) = false -> e_id e = VStr k).
Proof.
  intros H k e Hin.
  apply construct_entries_inversion in H
    as (converters & m & docs & ids & pm & converted
        & Hc & Hm & _ & Hpe & _ & _ & Hconv & Hassign).
  apply assignment_keeps_keys_and_ids in Hassign.
  destruct (@Forall2_In_r _ _ _ _ _ (k, e) Hassign Hin)
    as ([k0 e0] & Hin0 & Hk & Hid).
  simpl in Hk, Hid. subst k0.
  destruct (construct_loop_records _ _ _ _ Hconv k e0 Hin0)
    as [[] | (doc & entry & Hdoc & He & ->)].
  exists m, docs, ids, converters, doc, entry.
  repeat (split; [assumption |]).
  rewrite Hid. unfold with_identifier.
  split; intros Ht; rewrite Ht; reflexivity.
Qed.

(** X8. The duplicate check at work: when the documents up to some point
    convert, their derived identifiers are pairwise distinct, and the next
    document converts as well but its derived identifier was already used,
    the loop of [construct_entries] raises the duplicate-identifier error
    for that identifier. *)
Theorem repeated_derived_identifier_raises
        converters property_definitions
        (earlier later : list (string * Doc)) (entry_id : string) (doc : Doc) :
  NoDup (map fst earlier) ->
  In entry_id (map fst earlier) ->
  (forall ie, In ie (earlier ++ [(entry_id, doc)]) ->
              exists entry,
                outcome (try_converters converters (fst ie) (snd ie)
                                        property_definitions)
                = inr (Some entry)) ->
  outcome (foldM (construct_entry converters property_definitions) []
                 (earlier ++ (entry_id, doc) :: later))
  = inl (RuntimeError (DuplicateEntryId entry_id)).
Proof.
  intros Hnd Hin Hconv.
  assert (Hloop : forall l (d : dict string Entry),
             NoDup (dict_keys d ++ map fst l) ->
             (forall ie, In ie l ->
                         exists entry,
                           outcome (try_converters converters (fst ie) (snd ie)
                                                   property_definitions)
                           = inr (Some entry)) ->
             exists d',
               outcome (foldM (construct_entry converters property_definitions)
                              d l) = inr d'
               /\ dict_keys d' = dict_keys d ++ map fst l).
  { induction l as [| ie l IH]; intros d Hd Hc.
    - exists d. split; [reflexivity | now rewrite app_nil_r].
    - destruct (Hc ie (or_introl eq_refl)) as [entry He].
      assert (Hfresh : dict_mem String.eqb d (fst ie) = false).
      { apply not_in_keys_not_mem. intros Hk.
        apply NoDup_app_remove_r in Hd as Hd'.
        simpl in Hd. apply NoDup_remove_2 in Hd. apply Hd.
        apply in_or_app. now left. }
      assert (Hstep : outcome (construct_entry converters property_definitions
                                               d ie)
                      = inr (dict_set String.eqb d (fst ie)
                                      (with_identifier (fst ie) entry))).
      { unfold construct_entry. rewrite (outcome_bind_of_inr _ _ He).
        rewrite Hfresh. reflexivity. }
      destruct (IH (dict_set String.eqb d (fst ie)
                             (with_identifier (fst ie) entry)))
        as (d' & Hd' & Hk').
      + rewrite dict_set_fresh_keys by exact Hfresh.
        simpl in Hd. now rewrite <- app_assoc.
      + intros ie' Hie'. apply Hc. now right.
      + exists d'. split.
        * simpl. now rewrite (outcome_bind_of_inr _ _ Hstep).
        * rewrite Hk', dict_set_fresh_keys by exact Hfresh.
          simpl. now rewrite <- app_assoc. }
  destruct (Hloop earlier []) as (d1 & H1 & Hk1).
  - exact Hnd.
  - intros ie Hie. apply Hconv. apply in_or_app. now left.
  - rewrite foldM_app, (outcome_bind_of_inr _ _ H1). simpl in Hk1.
    cbn [foldM].
    destruct (Hconv (entry_id, doc)) as [entry He];
      [apply in_or_app; right; now left |].
    apply outcome_bind_of_inl.
    apply (derived_identifier_collision_raises converters property_definitions
             d1 (entry_id, doc) He).
    unfold dict_mem. cbn [fst].
    assert (Hk : In entry_id (dict_keys d1)) by now rewrite Hk1.
    unfold dict_keys in Hk. apply in_map_iff in Hk as ([k v] & E & Hkv).
    simpl in E. subst k. apply In_dict_get in Hkv as [v' Hv'].
    now rewrite Hv'.
Qed.

(** ** Property ingestion: later rows update earlier ones *)

Lemma py_eqb_refl a : py_eqb a a = true.
Proof.
  destruct a as [| b | z | q | s]; simpl;
    try apply Qeq_bool_refl; try apply String.eqb_refl; reflexivity.
Qed.

Lemma py_eqb_sym a b : py_eqb a b = true -> py_eqb b a = true.
Proof.
  destruct a, b; simpl; intros H; try discriminate; try reflexivity;
    try (now apply Qeq_bool_sym);
    try (apply String.eqb_eq in H; subst; apply String.eqb_refl).
Qed.

Lemma py_eqb_trans a b c :
  py_eqb a b = true -> py_eqb b c = true -> py_eqb a c = true.
Proof.
  destruct a, b, c; simpl; intros H1 H2; try discriminate; try reflexivity;
    try (eapply Qeq_bool_trans; eassumption);
    try (apply String.eqb_eq in H1; apply String.eqb_eq in H2; subst;
         apply String.eqb_refl).
Qed.

(** Keys that are equal to one another compare alike with any third key. *)
Lemma py_eqb_congr k k' k0 :
  py_eqb k k' = true -> py_eqb k0 k = py_eqb k0 k'.
Proof.
  intros H. destruct (py_eqb k0 k) eqn:E1, (py_eqb k0 k') eqn:E2;
    try reflexivity.
  - rewrite (py_eqb_trans _ _ _ E1 H) in E2. discriminate.
  - rewrite (py_eqb_trans _ _ _ E2 (py_eqb_sym _ _ H)) in E1. discriminate.
Qed.

Lemma rows_get_congr V (d : dict pyval V) k k' :
  py_eqb k k' = true -> dict_get py_eqb d k = dict_get py_eqb d k'.
Proof.
  intros H. induction d as [| [k0 v0] d IH]; simpl; [reflexivity |].
  rewrite (py_eqb_congr _ _ k0 H). now rewrite IH.
Qed.

Lemma py_eqb_congr_l a b c :
  py_eqb a b = true -> py_eqb a c = py_eqb b c.
Proof.
  intros H. destruct (py_eqb a c) eqn:E1, (py_eqb b c) eqn:E2;
    try reflexivity.
  - rewrite (py_eqb_trans _ _ _ (py_eqb_sym _ _ H) E1) in E2. discriminate.
  - rewrite (py_eqb_trans _ _ _ H E2) in E1. discriminate.
Qed.

Lemma rows_get_set V (d : dict pyval V) k v k' :
  dict_get py_eqb (dict_set py_eqb d k v) k'
  = if py_eqb k k' then Some v else dict_get py_eqb d k'.
Proof.
  induction d as [| [k0 v0] d IH]; simpl; [reflexivity |].
  destruct (py_eqb k0 k) eqn:E; simpl.
  - rewrite (py_eqb_congr_l _ _ k' E). now destruct (py_eqb k k').
  - destruct (py_eqb k0 k') eqn:E0; [| exact IH].
    destruct (py_eqb k k') eqn:E'; [| reflexivity].
    rewrite (py_eqb_trans _ _ _ E0 (py_eqb_sym _ _ E')) in E. discriminate.
Qed.

Lemma dict_update_get_absent V (e : dict string V) : forall d k,
  ~ In k (dict_keys e) ->
  dict_get String.eqb (dict_update String.eqb d e) k = dict_get String.eqb d k.
Proof.
  unfold dict_update, dict_keys.
  induction e as [| [k0 v0] e IH]; intros d k Hk; simpl; [reflexivity |].
  simpl in Hk. rewrite IH by (intros H; apply Hk; now right).
  apply dict_get_set_other. intros ->. apply Hk. now left.
Qed.

Lemma dict_update_get_present V (e : dict string V) : forall d k v,
  NoDup (dict_keys e) -> In (k, v) e ->
  dict_get String.eqb (dict_update String.eqb d e) k = Some v.
Proof.
  unfold dict_update, dict_keys.
  induction e as [| [k0 v0] e IH]; intros d k v Hnd Hin; [contradiction |].
  simpl in *. inversion Hnd as [| ? ? Hnot Hrest]; subst.
  destruct Hin as [[= -> ->] | Hin].
  - fold (dict_update String.eqb (dict_set String.eqb d k v) e).
    rewrite dict_update_get_absent by exact Hnot.
    apply dict_get_set_same.
  - now apply IH.
Qed.

(** X9. Merging a parsed row into [parsed_properties] updates and does not
    replace: the rows of other records are untouched; for the record itself
    every property the new row does not mention keeps its earlier value,
    and every property it mentions takes the new value. *)
Theorem later_rows_update_earlier_ones
        (st : rows * list string) (key key' : pyval) (r : row)
        (property : string) :
  (py_eqb key key' = false ->
   lookup (fst (merge_row st (key, r))) key' property
   = lookup (fst st) key' property)
  /\ (py_eqb key key' = true -> ~ In property (dict_keys r) ->
      lookup (fst (merge_row st (key, r))) key' property
      = lookup (fst st) key' property)
  /\ (py_eqb key key' = true -> NoDup (dict_keys r) ->
      forall v, In (property, v) r ->
                lookup (fst (merge_row st (key, r))) key' property = v).
Proof.
  unfold lookup, merge_row. cbn [fst snd]. rewrite rows_get_set.
  repeat apply conj.
  - now intros ->.
  - intros E Hp. rewrite E, <- (rows_get_congr (fst st) _ _ E).
    rewrite dict_update_get_absent by exact Hp.
    now destruct (dict_get py_eqb (fst st) key).
  - intros E Hnd v Hin. rewrite E.
    now rewrite (dict_update_get_present _ _ _ _ Hnd Hin).
Qed.

(** ** Property files without rows *)

Lemma try_property_parsers_inversion _path defs st : forall parsers st',
  outcome (try_property_parsers parsers _path defs st) = inr (Some st') ->
  exists parser properties,
    In parser parsers /\ parser _path defs = inr properties
    /\ st' = merge_rows st properties.
Proof.
  induction parsers as [| parser rest IH]; intros st'; [discriminate |].
  cbn [try_property_parsers]. rewrite outcome_tell.
  destruct (parser _path defs) as [e | properties] eqn:Hp.
  - intros H. destruct (IH _ H) as (q & ps & Hin & Hq).
    exists q, ps. split; [now right | exact Hq].
  - simpl. intros [= <-]. exists parser, properties.
    split; [now left | split; [exact Hp | reflexivity]].
Qed.

Lemma parse_property_file_inversion defs st _path st' :
  outcome (parse_property_file defs st _path) = inr st' ->
  exists parsers parser properties,
    dict_get String.eqb PROPERTY_PARSERS (suffix _path) = Some parsers
    /\ In parser parsers /\ parser _path defs = inr properties
    /\ st' = merge_rows st properties.
Proof.
  unfold parse_property_file. intros H.
  apply outcome_bind_inr in H as (parsers & Hps & H).
  apply outcome_bind_inr in H as (r & Hr & H).
  destruct r as [s |]; [| discriminate]. simpl in H. injection H as <-.
  destruct (dict_get String.eqb PROPERTY_PARSERS (suffix _path)) as [ps |];
    [| discriminate].
  simpl in Hps. injection Hps as ->.
  apply try_property_parsers_inversion in Hr as (parser & properties & Hr).
  exists parsers, parser, properties. split; [reflexivity | exact Hr].
Qed.

(** The parser that wins is the first one that returns; the ones before it
    raised. *)
Lemma try_property_parsers_first _path defs st : forall parsers st',
  outcome (try_property_parsers parsers _path defs st) = inr (Some st') ->
  exists before parser after properties,
    parsers = before ++ parser :: after
    /\ (forall q, In q before -> exists e, q _path defs = inl e)
    /\ parser _path defs = inr properties
    /\ st' = merge_rows st properties.
Proof.
  induction parsers as [| parser rest IH]; intros st'; [discriminate |].
  cbn [try_property_parsers]. rewrite outcome_tell.
  destruct (parser _path defs) as [e | properties] eqn:Hp.
  - intros H. destruct (IH _ H) as (before & q & after & ps & -> & Hb & Hq).
    exists (parser :: before), q, after, ps. split; [reflexivity |].
    split; [| exact Hq].
    intros q' [<- | Hin]; [now exists e | now apply Hb].
  - simpl. intros [= <-]. exists [], parser, rest, properties.
    split; [reflexivity |]. split; [intros q [] |].
    split; [exact Hp | reflexivity].
Qed.

(** X10. Property files that parse but hold no rows are a hard failure.
    When property files are matched and, on each of them, the first parser
    registered for its extension that returns (those before it having
    raised) returns an empty mapping, assignment raises; if every file did
    parse, the error is the no-properties-parsed one. *)
Theorem property_files_without_rows_are_an_error
        optimade_entries property_matches_by_file property_definitions
        provider_prefix :
  property_matches_by_file <> [] ->
  (forall k l _path before parser after properties,
      In (k, l) property_matches_by_file -> In _path l ->
      dict_get String.eqb PROPERTY_PARSERS (suffix _path)
      = Some (before ++ parser :: after) ->
      (forall q, In q before ->
                 exists e, q _path property_definitions = inl e) ->
      parser _path property_definitions = inr properties ->
      properties = []) ->
  exists e,
    outcome (_parse_and_assign_properties optimade_entries
               property_matches_by_file property_definitions provider_prefix)
    = inl e
    /\ (forall st,
           outcome (parse_properties property_matches_by_file
                                     property_definitions) = inr st ->
           e = RuntimeError NoPropertiesParsed).
Proof.
  intros Hne Hempty.
  assert (Hrows : forall st,
             outcome (parse_properties property_matches_by_file
                                       property_definitions) = inr st ->
             fst st = []).
  { intros st. unfold parse_properties.
    apply (foldM_invariant _ (fun s : rows * list string => fst s = [])
                           property_matches_by_file); [| reflexivity].
    intros a [k l] a' Hkl Ha.
    apply (foldM_invariant _ (fun s : rows * list string => fst s = []) l);
      [| exact Ha].
    intros b _path b' Hpath Hb Hs.
    unfold parse_property_file in Hs.
    apply outcome_bind_inr in Hs as (parsers & Hps & Hs).
    apply outcome_bind_inr in Hs as (r & Hr & Hs).
    destruct r as [s' |]; [| discriminate]. simpl in Hs. injection Hs as <-.
    destruct (dict_get String.eqb PROPERTY_PARSERS (suffix _path))
      as [ps |] eqn:Hreg; [| discriminate].
    simpl in Hps. injection Hps as ->.
    apply try_property_parsers_first in Hr
      as (before & parser & after & properties & -> & Hbefore & Hp & ->).
    rewrite (Hempty k l _path before parser after properties
                    Hkl Hpath Hreg Hbefore Hp).
    exact Hb. }
  unfold _parse_and_assign_properties.
  destruct property_matches_by_file as [| m ms] eqn:Hpm; [congruence |].
  rewrite <- Hpm in *.
  destruct (outcome (parse_properties property_matches_by_file
                                      property_definitions))
    as [e | st] eqn:Hst.
  - exists e. split; [now apply outcome_bind_of_inl | discriminate].
  - exists (RuntimeError NoPropertiesParsed). split; [| reflexivity].
    rewrite (outcome_bind_of_inr _ _ Hst).
    now rewrite (Hrows st eq_refl).
Qed.

(** ** The coverage warning *)

Lemma subset_In l r :
  subset l r = true -> forall x, In x l -> In x r.
Proof.
  unfold subset. rewrite forallb_forall. intros H x Hx.
  apply mem_In. now apply H.
Qed.

(** X11. When property files are assigned and no coverage warning is
    issued, the attribute set is rectangular over the declared definitions:
    every entry of the result has the key _<provider_prefix>_<name> for
    every declared property name. *)
Theorem no_coverage_warning_means_every_declared_key
        optimade_entries property_matches_by_file property_definitions
        provider_prefix l optimade_entries' :
  property_matches_by_file <> [] ->
  _parse_and_assign_properties optimade_entries property_matches_by_file
                               property_definitions provider_prefix
  = (l, inr optimade_entries') ->
  (forall found expected, ~ In (Warn (CoverageMismatch found expected)) l) ->
  forall id e pd,
    In (id, e) optimade_entries' -> In pd property_definitions ->
    exists v,
      dict_get String.eqb (e_attributes e)
               (prefixed provider_prefix (name pd)) = Some v.
Proof.
  intros Hne Hrun Hquiet id e pd Hin Hpd.
  assert (Hout : outcome (_parse_and_assign_properties optimade_entries
                            property_matches_by_file property_definitions
                            provider_prefix) = inr optimade_entries')
    by now rewrite Hrun.
  pose proof Hout as Hinv.
  apply assignment_inversion in Hinv as (st & Hst & Hrows & HF);
    [| exact Hne].
  assert (Hsub : subset (dict_keys (make_property_def_dict
                                      property_definitions)) (snd st) = true).
  { destruct (set_eqb (dict_keys (make_property_def_dict property_definitions))
                      (snd st)) eqn:E.
    - unfold set_eqb in E. now apply andb_true_iff in E as [E _].
    - exfalso.
      apply (Hquiet (snd st)
                    (dict_keys (make_property_def_dict property_definitions))).
      assert (Hl : l = log (_parse_and_assign_properties
                             optimade_entries property_matches_by_file
                             property_definitions provider_prefix))
        by now rewrite Hrun.
      rewrite Hl. unfold _parse_and_assign_properties.
      destruct property_matches_by_file as [| m ms] eqn:Hpm; [congruence |].
      rewrite <- Hpm in *.
      rewrite (log_bind_of_inr _ _ Hst). apply in_or_app. right.
      destruct (fst st) as [| r rs]; [congruence |].
      rewrite E. unfold tell, bind.
      destruct (mapM _ optimade_entries) as [l2 r2]. simpl. now left. }
  destruct (@make_property_def_dict_complete property_definitions pd Hpd)
    as [pd' Hpd'].
  assert (Hfound : In (name pd) (snd st)).
  { apply (subset_In _ _ Hsub). apply dict_get_In in Hpd'.
    unfold dict_keys. apply in_map_iff. now exists (name pd, pd'). }
  destruct (@Forall2_In_r _ _ _ _ _ (id, e) HF Hin) as (kv & _ & Hkv).
  edestruct assign_entry_value as (v & _ & Hv);
    [exact Hkv | exact Hfound | exact Hpd' |].
  exists v. exact Hv.
Qed.

(** ** The serializer: what it touches and what it leaves behind *)

Lemma write_infos_lines prefix p : forall pdefs fs,
  exists lines,
    fst (write_infos pdefs prefix p fs) = write_lines fs p lines.
Proof.
  induction pdefs as [| [t defs] pdefs IH]; intros fs; simpl.
  - now exists [].
  - destruct (_construct_entry_type_info t defs prefix) as [e | r];
      [now exists [] |].
    destruct (IH (write_line fs p (info_json r))) as [lines Hl].
    exists (info_json r :: lines). exact Hl.
Qed.

Lemma write_records_lines p : forall entries fs,
  exists lines, fst (write_records entries p fs) = write_lines fs p lines.
Proof.
  induction entries as [| e entries IH]; intros fs; simpl.
  - now exists [].
  - destruct (json_dumps (set_attributes e (strip_ase (e_attributes e))))
      as [x | line]; [now exists [] |].
    destruct (IH (write_line fs p line)) as [lines Hl].
    exists (line :: lines). exact Hl.
Qed.

Lemma write_entries_lines p : forall optimade_entries fs,
  exists lines,
    fst (write_entries optimade_entries p fs) = write_lines fs p lines.
Proof.
  induction optimade_entries as [| [t entries] rest IH]; intros fs.
  - now exists [].
  - cbn [write_entries].
    assert (Hgen : exists lines,
               fst (let (fs', r) := write_records entries p fs in
                    match r with
                    | inl e => (fs', inl e)
                    | inr _ => write_entries rest p fs'
                    end) = write_lines fs p lines).
    { destruct (write_records_lines p entries fs) as [l1 H1].
      destruct (write_records entries p fs) as [fs1 [e | u]]; simpl in *.
      - now exists l1.
      - destruct (IH fs1) as [l2 H2]. exists (l1 ++ l2).
        now rewrite write_lines_app, <- H1. }
    destruct entries as [| e entries]; [apply IH | exact Hgen].
Qed.

(** Once the target is open the file system is the given one with some
    lines appended to the target, the header first. *)
Lemma write_optimade_jsonl_lines optimade_entries property_definitions
      provider_prefix jsonl_path (fs : FS) :
  fs (target jsonl_path) = None ->
  open_error (target jsonl_path) = None ->
  exists lines,
    fst (write_optimade_jsonl optimade_entries property_definitions
                              provider_prefix jsonl_path fs)
    = write_lines (fs_append fs (target jsonl_path) EmptyString)
                  (target jsonl_path) (header_json :: lines).
Proof.
  intros Hfs Hopen. unfold write_optimade_jsonl. fold (target jsonl_path).
  rewrite Hfs, Hopen.
  set (fs0 := write_line (fs_append fs (target jsonl_path) "")
                         (target jsonl_path) header_json).
  destruct (write_infos_lines provider_prefix (target jsonl_path)
                              property_definitions fs0) as [l1 H1].
  destruct (write_infos property_definitions provider_prefix
                        (target jsonl_path) fs0) as [fs1 [e | u]];
    simpl in H1; subst fs1.
  - exists l1. reflexivity.
  - destruct (write_entries_lines (target jsonl_path) optimade_entries
                                  (write_lines fs0 (target jsonl_path) l1))
      as [l2 H2].
    destruct (write_entries optimade_entries (target jsonl_path)
                            (write_lines fs0 (target jsonl_path) l1))
      as [fs2 [e | u']]; simpl in H2; subst fs2;
      exists (l1 ++ l2); simpl; now rewrite write_lines_app.
Qed.

Lemma write_optimade_jsonl_frame
      optimade_entries property_definitions provider_prefix jsonl_path
      (fs : FS) (q : Path) :
  q <> target jsonl_path ->
  fst (write_optimade_jsonl optimade_entries property_definitions
                            provider_prefix jsonl_path fs) q = fs q.
Proof.
  intros Hq.
  destruct (fs (target jsonl_path)) as [c |] eqn:Hfs.
  - unfold write_optimade_jsonl. fold (target jsonl_path). now rewrite Hfs.
  - destruct (open_error (target jsonl_path)) as [e |] eqn:Hopen.
    + unfold write_optimade_jsonl. fold (target jsonl_path).
      now rewrite Hfs, Hopen.
    + destruct (write_optimade_jsonl_lines optimade_entries
                  property_definitions provider_prefix jsonl_path fs Hfs Hopen)
        as [lines ->].
      rewrite write_lines_other by exact Hq.
      now apply fs_append_other.
Qed.

(** X12. [write_optimade_jsonl] touches one file only: whatever it returns
    or raises, every path other than the target holds afterwards what it
    held before, and the path it returns is the target. *)
Theorem serializer_touches_only_the_target
        optimade_entries property_definitions provider_prefix jsonl_path
        (fs : FS) (q : Path) :
  q <> target jsonl_path ->
  fst (write_optimade_jsonl optimade_entries property_definitions
                            provider_prefix jsonl_path fs) q = fs q
  /\ (forall p,
         snd (write_optimade_jsonl optimade_entries property_definitions
                                   provider_prefix jsonl_path fs) = inr p ->
         p = target jsonl_path).
Proof.
  intros Hq. split; [now apply write_optimade_jsonl_frame |].
  unfold write_optimade_jsonl. fold (target jsonl_path).
  destruct (fs (target jsonl_path)); [discriminate |].
  destruct (open_error (target jsonl_path)); [discriminate |].
  destruct (write_infos _ _ _ _) as [fs1 [e | u]]; [discriminate |].
  destruct (write_entries _ _ _) as [fs2 [e | u']]; [discriminate |].
  now intros p [= <-].
Qed.

(** X13. There is no rollback.  When the target does not exist and opening
    it fails, the open error is raised and the file system is as it was.
    When opening succeeds, the target exists afterwards and begins with the
    header line, whether the serialisation returned or raised part-way; a
    second call on the resulting file system raises the not-overwriting
    error and changes nothing. *)
Theorem failed_serialisation_leaves_a_file_behind
        optimade_entries property_definitions provider_prefix jsonl_path
        (fs : FS) :
  fs (target jsonl_path) = None ->
  (forall e,
      open_error (target jsonl_path) = Some e ->
      write_optimade_jsonl optimade_entries property_definitions
                           provider_prefix jsonl_path fs = (fs, inl e))
  /\ (open_error (target jsonl_path) = None ->
      exists lines,
        fst (write_optimade_jsonl optimade_entries property_definitions
                                  provider_prefix jsonl_path fs)
            (target jsonl_path)
        = Some (file_text (header_json :: lines))
        /\ write_optimade_jsonl optimade_entries property_definitions
                                provider_prefix jsonl_path
                                (fst (write_optimade_jsonl
                                        optimade_entries property_definitions
                                        provider_prefix jsonl_path fs))
           = (fst (write_optimade_jsonl optimade_entries property_definitions
                                        provider_prefix jsonl_path fs),
              inl (RuntimeError NotOverwriting))).
Proof.
  intros Hfs. split.
  - intros e Hopen. unfold write_optimade_jsonl. fold (target jsonl_path).
    now rewrite Hfs, Hopen.
  - intros Hopen.
    destruct (write_optimade_jsonl_lines optimade_entries property_definitions
                provider_prefix jsonl_path fs Hfs Hopen) as [lines Hl].
    assert (Htext : fst (write_optimade_jsonl optimade_entries
                           property_definitions provider_prefix jsonl_path fs)
                        (target jsonl_path)
                    = Some (file_text (header_json :: lines))).
    { rewrite Hl.
      rewrite (@write_lines_same (header_json :: lines) _ _ ""%string).
      - reflexivity.
      - rewrite fs_append_same, Hfs. reflexivity. }
    exists lines. split; [exact Htext |].
    set (fs' := fst (write_optimade_jsonl optimade_entries
                       property_definitions provider_prefix jsonl_path fs))
      in *.
    unfold write_optimade_jsonl at 1. fold (target jsonl_path).
    now rewrite Htext.
Qed.

(** ** Stripping of the internal attributes *)

Lemma dict_get_filter_key V (f : string -> bool) (d : dict string V) k :
  dict_get String.eqb (filter (fun kv => f (fst kv)) d) k
  = if f k then dict_get String.eqb d k else None.
Proof.
  destruct (f k) eqn:E.
  - induction d as [| [k0 v0] d IH]; simpl; [reflexivity |].
    destruct (String.eqb_spec k0 k) as [Heq | Hne].
    + subst k0. rewrite E. simpl. now rewrite String.eqb_refl.
    + destruct (f k0); simpl; [| exact IH].
      destruct (String.eqb_spec k0 k); [congruence | exact IH].
  - induction d as [| [k0 v0] d IH]; simpl; [reflexivity |].
    destruct (String.eqb_spec k0 k) as [Heq | Hne].
    + subst k0. rewrite E. exact IH.
    + destruct (f k0); simpl; [| exact IH].
      destruct (String.eqb_spec k0 k); [congruence | exact IH].
Qed.

Lemma prefix_cons a b s1 s2 :
  String.prefix (String a s1) (String b s2)
  = if ascii_dec a b then String.prefix s1 s2 else false.
Proof. reflexivity. Qed.

Lemma prefix_ase_prefixed provider_prefix property :
  String.prefix "_ase" (prefixed provider_prefix property)
  = String.prefix "ase" provider_prefix.
Proof.
  unfold prefixed.
  destruct provider_prefix as [| c1 [| c2 [| c3 rest]]]; cbn [append];
    rewrite ?prefix_cons;
    repeat match goal with
           | |- context [ascii_dec ?a ?b] =>
               destruct (ascii_dec a b); try discriminate
           end;
    try reflexivity; try congruence.
  destruct rest; reflexivity.
Qed.

(** X14. No attribute whose key begins with _ase reaches the encoder and
    every other one does.  For an assigned property, whose key is the
    property name behind the provider prefix, the prefix decides: when it
    begins with ase the property is dropped from every record, otherwise
    it is serialised as assigned. *)
Theorem assigned_properties_are_serialised_unless_prefix_is_ase :
  (forall attrs k v,
      In (k, v) (strip_ase attrs)
      <-> In (k, v) attrs /\ String.prefix "_ase" k = false)
  /\ (forall provider_prefix attrs property,
         dict_get String.eqb (strip_ase attrs)
                  (prefixed provider_prefix property)
         = if String.prefix "ase" provider_prefix
           then None
           else dict_get String.eqb attrs (prefixed provider_prefix property)).
Proof.
  split.
  - intros attrs k v. unfold strip_ase. rewrite filter_In. simpl.
    now rewrite negb_true_iff.
  - intros provider_prefix attrs property. unfold strip_ase.
    rewrite (dict_get_filter_key (fun k => negb (String.prefix "_ase" k))).
    rewrite prefix_ase_prefixed.
    now destruct (String.prefix "ase" provider_prefix).
Qed.

(** ** [_construct_entry_type_info]: the fields of an entry type *)

(** [info["properties"]] before the built-in fields are merged in. *)
Definition custom_properties (property_definitions : list PropertyDefinition)
           (provider_prefix : string) : dict string (dict string pyval) :=
  fold_left (fun d p => dict_set String.eqb d
                                 (prefixed provider_prefix (name p))
                                 (property_info p))
            property_definitions [].

(** The [info] dictionary handed to [EntryInfoResource]. *)
Definition entry_type_info (entry_type : string)
           (property_definitions : list PropertyDefinition)
           (provider_prefix : string) : EntryInfo :=
  let props := dict_update String.eqb
                 (custom_properties property_definitions provider_prefix)
                 (default_properties entry_type) in
  {| formats := ["json"];
     info_description := entry_type;
     properties := props;
     output_fields_by_format := [("json", dict_keys props)] |}.

Lemma dict_set_present_keys V (d : dict string V) k v :
  dict_mem String.eqb d k = true ->
  dict_keys (dict_set String.eqb d k v) = dict_keys d.
Proof.
  unfold dict_mem, dict_keys. induction d as [| [k0 v0] d IH]; simpl;
    [discriminate |].
  destruct (String.eqb k0 k); [reflexivity |].
  intros H. simpl. now rewrite IH.
Qed.

Lemma mem_keys_is_dict_mem V (d : dict string V) k :
  In k (dict_keys d) <-> dict_mem String.eqb d k = true.
Proof.
  split.
  - intros H. destruct (dict_mem String.eqb d k) eqn:E; [reflexivity |].
    now apply dict_mem_keys in E.
  - intros H. destruct (in_dec String.string_dec k (dict_keys d)) as [Hin | Hout];
      [exact Hin |].
    apply not_in_keys_not_mem in Hout. congruence.
Qed.

Section InfoFold.
Variable provider_prefix : string.

Let key (p : PropertyDefinition) : string := prefixed provider_prefix (name p).
Let step (d : dict string (dict string pyval)) (p : PropertyDefinition) :=
  dict_set String.eqb d (key p) (property_info p).

Lemma info_fold_keys : forall l d,
  NoDup (dict_keys d ++ map key l) ->
  dict_keys (fold_left step l d) = dict_keys d ++ map key l.
Proof.
  induction l as [| p l IH]; intros d Hnd; simpl.
  - now rewrite app_nil_r.
  - assert (Hfresh : dict_mem String.eqb d (key p) = false).
    { apply not_in_keys_not_mem. intros Hk. simpl in Hnd.
      apply NoDup_remove_2 in Hnd. apply Hnd. apply in_or_app. now left. }
    assert (Hk1 : dict_keys (step d p) = dict_keys d ++ [key p])
      by (unfold step; now apply dict_set_fresh_keys).
    rewrite IH; rewrite Hk1.
    + now rewrite <- app_assoc.
    + simpl in Hnd. now rewrite <- app_assoc.
Qed.

Lemma info_fold_get_other : forall l d k,
  ~ In k (map key l) ->
  dict_get String.eqb (fold_left step l d) k = dict_get String.eqb d k.
Proof.
  induction l as [| p l IH]; intros d k Hk; simpl; [reflexivity |].
  simpl in Hk. rewrite IH by (intros H; apply Hk; now right).
  unfold step. apply dict_get_set_other. intros ->. apply Hk. now left.
Qed.

Lemma info_fold_get : forall l d p,
  NoDup (map key l) -> In p l ->
  dict_get String.eqb (fold_left step l d) (key p) = Some (property_info p).
Proof.
  induction l as [| q l IH]; intros d p Hnd Hin; [contradiction |].
  simpl in *. inversion Hnd as [| ? ? Hnot Hrest]; subst.
  destruct Hin as [-> | Hin]; [| now apply IH].
  rewrite info_fold_get_other by exact Hnot.
  unfold step. apply dict_get_set_same.
Qed.

End InfoFold.

Lemma dict_update_keys_split V (e : dict string V) : forall d,
  exists extra,
    dict_keys (dict_update String.eqb d e) = dict_keys d ++ extra
    /\ forall k, In k extra <-> In k (dict_keys e) /\ ~ In k (dict_keys d).
Proof.
  unfold dict_update.
  induction e as [| [k0 v0] e IH]; intros d; simpl.
  - exists []. split; [now rewrite app_nil_r |].
    intros k. split; [intros [] | intros [[] _]].
  - destruct (IH (dict_set String.eqb d k0 v0)) as (extra & Hkeys & Hextra).
    destruct (dict_mem String.eqb d k0) eqn:Hmem.
    + rewrite dict_set_present_keys in Hkeys, Hextra by exact Hmem.
      exists extra. split; [exact Hkeys |].
      intros k. rewrite Hextra. split.
      * intros [Hin Hnot]. split; [now right | exact Hnot].
      * intros [[<- | Hin] Hnot]; [| now split].
        exfalso. apply Hnot. now apply mem_keys_is_dict_mem.
    + rewrite dict_set_fresh_keys in Hkeys, Hextra by exact Hmem.
      exists (k0 :: extra). split; [now rewrite Hkeys, <- app_assoc |].
      intros k. simpl. rewrite Hextra. split.
      * intros [<- | [Hin Hnot]].
        -- split; [now left | now apply dict_mem_keys].
        -- split; [now right |]. intros H. apply Hnot.
           apply in_or_app. now left.
      * intros [[<- | Hin] Hnot]; [now left |].
        destruct (String.string_dec k0 k) as [-> | Hne]; [now left |].
        right. split; [exact Hin |]. intros H.
        apply in_app_or in H as [H | [H | []]]; [now apply Hnot | congruence].
Qed.

(** X15. The info of an entry type lists the declared properties first,
    under their prefixed names and in declaration order, and after them the
    built-in fields that are not among these; the json output fields are
    the keys of the properties in that order; a declared property whose
    prefixed name no built-in field shares has its own unit, type, title
    and description.  (Property names are taken to be distinct, as the
    configuration requires.) *)
Theorem entry_info_lists_declared_fields_first
        entry_type property_definitions provider_prefix :
  NoDup (map name property_definitions) ->
  _construct_entry_type_info entry_type property_definitions provider_prefix
  = EntryInfoResource
      (entry_type_info entry_type property_definitions provider_prefix)
  /\ exists builtin,
      dict_keys (properties (entry_type_info entry_type property_definitions
                                             provider_prefix))
      = map (fun p => prefixed provider_prefix (name p)) property_definitions
        ++ builtin
      /\ (forall k,
             In k builtin
             <-> In k (dict_keys (default_properties entry_type))
                 /\ ~ In k (map (fun p => prefixed provider_prefix (name p))
                                property_definitions))
      /\ dict_get String.eqb
                  (output_fields_by_format
                     (entry_type_info entry_type property_definitions
                                      provider_prefix)) "json"
         = Some (dict_keys (properties
                              (entry_type_info entry_type property_definitions
                                               provider_prefix)))
      /\ (forall p,
             In p property_definitions ->
             ~ In (prefixed provider_prefix (name p))
                  (dict_keys (default_properties entry_type)) ->
             dict_get String.eqb
                      (properties (entry_type_info entry_type
                                     property_definitions provider_prefix))
                      (prefixed provider_prefix (name p))
             = Some (property_info p)).
Proof.
  intros Hnd. split; [reflexivity |].
  assert (Hkeysnd : NoDup (map (fun p => prefixed provider_prefix (name p))
                               property_definitions)).
  { rewrite <- (map_map name (prefixed provider_prefix)).
    apply NoDup_map_injective; [| exact Hnd].
    intros x y. apply prefixed_inj. }
  assert (Hcustom : dict_keys (custom_properties property_definitions
                                                 provider_prefix)
                    = map (fun p => prefixed provider_prefix (name p))
                          property_definitions).
  { unfold custom_properties.
    now rewrite (info_fold_keys provider_prefix property_definitions []). }
  destruct (dict_update_keys_split
              (default_properties entry_type)
              (custom_properties property_definitions provider_prefix))
    as (extra & Hkeys & Hextra).
  exists extra. cbn [entry_type_info properties output_fields_by_format].
  rewrite Hcustom in Hkeys, Hextra.
  split; [exact Hkeys |]. split; [exact Hextra |]. split.
  - simpl. reflexivity.
  - intros p Hin Hnot.
    rewrite dict_update_get_absent by exact Hnot.
    unfold custom_properties.
    now apply (info_fold_get provider_prefix property_definitions []).
Qed.

(** ** [convert_archive]: grouping by entry type *)

(** [PROVIDER_PREFIX], read from the environment when the module loads. *)
Variable PROVIDER_PREFIX : string.

(** [d[k].extend(l)] on a [defaultdict(list)] *)
Definition extend_list V (d : dict string (list V)) (k : string) (l : list V)
  : dict string (list V) :=
  match dict_get String.eqb d k with
  | Some old => dict_set String.eqb d k (old ++ l)
  | None => dict_set String.eqb d k l
  end.

(** [d[k]] on the [defaultdict(list)], without inserting *)
Definition listed V (d : dict string (list V)) (k : string) : list V :=
  match dict_get String.eqb d k with
  | Some l => l
  | None => []
  end.

(** The strings of a list, each once, in the order in which they first
    appear. *)
Fixpoint first_appearances (l : list string) : list string :=
  match l with
  | [] => []
  | x :: l' =>
      x :: filter (fun y => negb (String.eqb x y)) (first_appearances l')
  end.

(** The loop over [mc_config.entries] that builds [optimade_entries]. *)
Definition collect_entries (entries : list EntryConfig)
  : M event (dict string (list Entry)) :=
  foldM (fun acc entry =>
           constructed <- construct_entries entry PROVIDER_PREFIX ;;
           ret (extend_list acc (entry_type entry) (dict_values constructed)))
        [] entries.

(** The loop over [mc_config.entries] that builds [property_definitions]. *)
Definition collect_property_definitions (entries : list EntryConfig)
  : dict string (list PropertyDefinition) :=
  fold_left (fun acc entry =>
               extend_list acc (entry_type entry) (property_definitions entry))
            entries [].

Lemma extend_list_keys V (d : dict string (list V)) k l :
  dict_keys (extend_list d k l)
  = if dict_mem String.eqb d k then dict_keys d else dict_keys d ++ [k].
Proof.
  unfold extend_list.
  destruct (dict_mem String.eqb d k) eqn:Hmem.
  - assert (H := Hmem). unfold dict_mem in H.
    destruct (dict_get String.eqb d k); [| discriminate].
    now apply dict_set_present_keys.
  - assert (H := Hmem). unfold dict_mem in H.
    destruct (dict_get String.eqb d k); [discriminate |].
    now apply dict_set_fresh_keys.
Qed.

Lemma extend_list_listed V (d : dict string (list V)) k l k' :
  listed (extend_list d k l) k'
  = if String.eqb k k' then listed d k' ++ l else listed d k'.
Proof.
  unfold listed, extend_list.
  destruct (String.eqb_spec k k') as [<- | Hne].
  - destruct (dict_get String.eqb d k); now rewrite dict_get_set_same.
  - destruct (dict_get String.eqb d k);
      now rewrite dict_get_set_other by congruence.
Qed.

Lemma extend_list_mem V (d : dict string (list V)) k l k' :
  In k' (dict_keys (extend_list d k l)) <-> In k' (dict_keys d) \/ k' = k.
Proof.
  rewrite extend_list_keys.
  destruct (dict_mem String.eqb d k) eqn:Hmem.
  - split; [now left |]. intros [H | ->]; [exact H |].
    now apply mem_keys_is_dict_mem.
  - rewrite in_app_iff. simpl. split.
    + intros [H | [<- | []]]; auto.
    + intros [H | ->]; auto.
Qed.

Lemma extend_list_keys_NoDup V (d : dict string (list V)) k l :
  NoDup (dict_keys d) -> NoDup (dict_keys (extend_list d k l)).
Proof.
  intros H. rewrite extend_list_keys.
  destruct (dict_mem String.eqb d k) eqn:Hmem; [exact H |].
  apply NoDup_app; [exact H | constructor; [intros [] | constructor] |].
  intros x Hx [<- | []]. now apply (dict_mem_keys _ _ Hmem).
Qed.

Lemma filter_filter A (f g : A -> bool) (l : list A) :
  filter f (filter g l) = filter (fun x => g x && f x) l.
Proof.
  induction l as [| x l IH]; simpl; [reflexivity |].
  destruct (g x); simpl; [destruct (f x) |]; now rewrite IH.
Qed.

(** A [defaultdict] filled by a loop of [extend] calls has its keys in the
    order in which the loop first met them. *)
Lemma extend_list_fold_keys V A (key : A -> string) (val : A -> list V) :
  forall (l : list A) (d : dict string (list V)),
    dict_keys (fold_left (fun acc a => extend_list acc (key a) (val a)) l d)
    = dict_keys d
      ++ filter (fun y => negb (mem y (dict_keys d)))
                (first_appearances (map key l)).
Proof.
  induction l as [| a l IH]; intros d; simpl.
  - now rewrite app_nil_r.
  - rewrite IH, extend_list_keys.
    destruct (dict_mem String.eqb d (key a)) eqn:Hmem.
    + assert (Hin : mem (key a) (dict_keys d) = true)
        by (apply mem_In; now apply mem_keys_is_dict_mem).
      rewrite Hin. simpl. f_equal. rewrite filter_filter.
      apply filter_ext. intros y.
      destruct (String.eqb_spec (key a) y) as [<- | Hne]; simpl;
        [now rewrite Hin | reflexivity].
    + assert (Hout : mem (key a) (dict_keys d) = false).
      { destruct (mem (key a) (dict_keys d)) eqn:E; [| reflexivity].
        apply mem_In, mem_keys_is_dict_mem in E. congruence. }
      rewrite Hout. simpl. rewrite <- app_assoc. simpl. do 2 f_equal.
      rewrite filter_filter. apply filter_ext. intros y.
      unfold mem. rewrite existsb_app. simpl.
      rewrite orb_false_r, negb_orb, (String.eqb_sym y (key a)).
      apply andb_comm.
Qed.

Lemma filter_all A (l : list A) : filter (fun _ => true) l = l.
Proof. induction l as [| x l IH]; simpl; [reflexivity | now rewrite IH]. Qed.

Lemma collect_definitions_loop entries : forall acc,
  (forall t,
      listed (fold_left (fun acc entry =>
                           extend_list acc (entry_type entry)
                                       (property_definitions entry))
                        entries acc) t
      = listed acc t
        ++ flat_map property_definitions
                    (filter (fun entry => String.eqb (entry_type entry) t)
                            entries))
  /\ (forall t,
         In t (dict_keys (fold_left (fun acc entry =>
                                       extend_list acc (entry_type entry)
                                                   (property_definitions entry))
                                    entries acc))
         <-> In t (dict_keys acc)
             \/ exists entry, In entry entries /\ entry_type entry = t)
  /\ (NoDup (dict_keys acc) ->
      NoDup (dict_keys (fold_left (fun acc entry =>
                                     extend_list acc (entry_type entry)
                                                 (property_definitions entry))
                                  entries acc))).
Proof.
  induction entries as [| entry entries IH]; intros acc; simpl.
  - split; [| split].
    + intros t. now rewrite app_nil_r.
    + intros t. split; [now left |].
      intros [H | (entry & [] & _)]. exact H.
    + auto.
  - destruct (IH (extend_list acc (entry_type entry)
                              (property_definitions entry)))
      as (Hl & Hk & Hn).
    split; [| split].
    + intros t. rewrite Hl, extend_list_listed.
      destruct (String.eqb (entry_type entry) t); simpl;
        now rewrite <- ?app_assoc.
    + intros t. rewrite Hk, extend_list_mem. split.
      * intros [[H | ->] | (e & He & Et)]; eauto.
      * intros [H | (e & [<- | He] & Et)]; eauto.
    + intros H. apply Hn. now apply extend_list_keys_NoDup.
Qed.

Lemma collect_entries_loop entries : forall acc acc_defs d,
  dict_keys acc = dict_keys acc_defs ->
  outcome (foldM (fun acc entry =>
                    constructed <- construct_entries entry PROVIDER_PREFIX ;;
                    ret (extend_list acc (entry_type entry)
                                     (dict_values constructed)))
                 acc entries) = inr d ->
  dict_keys d
  = dict_keys (fold_left (fun acc entry =>
                            extend_list acc (entry_type entry)
                                        (property_definitions entry))
                         entries acc_defs)
  /\ exists results,
      Forall2 (fun entry constructed =>
                 outcome (construct_entries entry PROVIDER_PREFIX)
                 = inr constructed) entries results
      /\ forall t,
          listed d t
          = listed acc t
            ++ flat_map (fun er => dict_values (snd er))
                        (filter (fun er => String.eqb (entry_type (fst er)) t)
                                (combine entries results)).
Proof.
  induction entries as [| entry entries IH]; intros acc acc_defs d Hkeys H.
  - simpl in H. injection H as <-. split; [exact Hkeys |].
    exists []. split; [constructor |]. intros t. simpl. now rewrite app_nil_r.
  - cbn [foldM] in H. apply outcome_bind_inr in H as (acc1 & H1 & H2).
    apply outcome_bind_inr in H1 as (constructed & Hc & H1).
    simpl in H1. injection H1 as <-.
    apply (IH _ (extend_list acc_defs (entry_type entry)
                             (property_definitions entry))) in H2.
    + destruct H2 as (Hk & results & HF & Hl). split; [exact Hk |].
      exists (constructed :: results). split; [now constructor |].
      intros t. rewrite Hl, extend_list_listed. simpl.
      destruct (String.eqb (entry_type entry) t); simpl;
        now rewrite <- ?app_assoc.
    + rewrite !extend_list_keys.
      assert (Hm : dict_mem String.eqb acc (entry_type entry)
                   = dict_mem String.eqb acc_defs (entry_type entry)).
      { destruct (dict_mem String.eqb acc (entry_type entry)) eqn:E1,
                 (dict_mem String.eqb acc_defs (entry_type entry)) eqn:E2;
          try reflexivity.
        - apply mem_keys_is_dict_mem in E1. rewrite Hkeys in E1.
          apply mem_keys_is_dict_mem in E1. congruence.
        - apply mem_keys_is_dict_mem in E2. rewrite <- Hkeys in E2.
          apply mem_keys_is_dict_mem in E2. congruence. }
      rewrite Hm, Hkeys. reflexivity.
Qed.

(** X16. [convert_archive] groups by entry type.  The keys of the entries
    map are the entry types of the configuration, each once, in the order in
    which the configuration first mentions them, and the property-definitions
    map has the same keys in the same order, so that every record line has
    an info line for its type; under a type, the records are those of the
    configuration's entries of that type, one [construct_entries] result
    after the other in configuration order, and the definitions are those
    entries' definitions in the same order. *)
Theorem convert_archive_groups_by_entry_type entries optimade_entries :
  outcome (collect_entries entries) = inr optimade_entries ->
  dict_keys optimade_entries = first_appearances (map entry_type entries)
  /\ dict_keys optimade_entries
     = dict_keys (collect_property_definitions entries)
  /\ NoDup (dict_keys optimade_entries)
  /\ (forall t, In t (dict_keys optimade_entries)
                <-> exists entry, In entry entries /\ entry_type entry = t)
  /\ (forall t,
         listed (collect_property_definitions entries) t
         = flat_map property_definitions
                    (filter (fun entry => String.eqb (entry_type entry) t)
                            entries))
  /\ exists results,
      Forall2 (fun entry constructed =>
                 outcome (construct_entries entry PROVIDER_PREFIX)
                 = inr constructed) entries results
      /\ forall t,
          listed optimade_entries t
          = flat_map (fun er => dict_values (snd er))
                     (filter (fun er => String.eqb (entry_type (fst er)) t)
                             (combine entries results)).
Proof.
  intros H. unfold collect_entries in H.
  apply (collect_entries_loop entries [] []) in H; [| reflexivity].
  destruct H as (Hk & results & HF & Hl).
  destruct (collect_definitions_loop entries []) as (Hdl & Hdk & Hdn).
  fold (collect_property_definitions entries) in Hk, Hdl, Hdk, Hdn.
  split.
  { rewrite Hk. unfold collect_property_definitions.
    rewrite (extend_list_fold_keys entry_type property_definitions entries []).
    simpl. apply filter_all. }
  split; [exact Hk |]. split; [rewrite Hk; apply Hdn; constructor |].
  split; [| split].
  - intros t. rewrite Hk, Hdk. split; [| now right].
    intros [[] | H]. exact H.
  - intros t. now rewrite Hdl.
  - exists results. split; [exact HF |]. intros t. now rewrite Hl.
Qed.

End Convert.

(** * A small archive

    Paths are strings relative to the archive root, a document is the label
    its parser read.  The archive holds two structure files under one
    sub-archive, a bibliography, and one property table. *)

Definition ex_glob (m : string) : list string :=
  if String.eqb m "*.cif" then ["a.cif"; "b.cif"] else [].

Definition ex_joinpath (m : string) : string := m.
Definition ex_exists (p : string) : bool := true.
Definition ex_relative_to (p : string) : exn + string := inr p.
Definition ex_suffix (p : string) : string := ".csv".
Definition ex_truthy (doc : string) : bool := negb (String.eqb doc "").

(** Every structure file of the archive describes silicon. *)
Definition ex_read_structure : entry_parser string string :=
  fun _ => inr (One "Si").

Definition ex_read_bibliography : entry_parser string string :=
  fun _ => inr (Many ["knuth1984"; "lamport1994"]).

Definition ex_ENTRY_PARSERS : dict string (list (entry_parser string string)) :=
  [("structures", [ex_read_structure]);
   ("references", [ex_read_bibliography])].

(** A converter that leaves the identifier to the pipeline. *)
Definition ex_plain : converter string :=
  fun doc _ =>
    inr {| e_id := VNone; e_attributes := [("label", VStr doc)]; e_rest := [] |}.

(** A converter that supplies the document's label as identifier. *)
Definition ex_labelled : converter string :=
  fun doc _ =>
    inr {| e_id := VStr doc; e_attributes := []; e_rest := [] |}.

Definition ex_digit (c : ascii) : option Z :=
  let n := nat_of_ascii c in
  if (48 <=? n)%nat && (n <=? 57)%nat then Some (Z.of_nat (n - 48)) else None.

(** Reads digits with at most one point among them. *)
Fixpoint ex_decimal (s : string) (num : Z) (den : positive) (point digit : bool)
  : option Q :=
  match s with
  | EmptyString => if digit then Some (Qred (num # den)) else None
  | String c s' =>
      if Ascii.eqb c "." then
        if point then None else ex_decimal s' num den true digit
      else
        match ex_digit c with
        | Some d => ex_decimal s' (10 * num + d)
                               (if point then 10 * den else den)%positive
                               point true
        | None => None
        end
  end.

(** A cast for the type tag float, as far as the examples need it: numbers
    are kept, and a string of digits with at most one point is read as the
    number it writes. *)
Definition ex_float (v : pyval) : exn + pyval :=
  match v with
  | VStr s => match ex_decimal s 0 1 false false with
              | Some q => inr (VFloat q)
              | None => inl (ValueError "could not convert string to float")
              end
  | VInt z => inr (VFloat (inject_Z z))
  | VBool b => inr (VFloat (if b then 1%Q else 0%Q))
  | VFloat q => inr (VFloat q)
  | VNone => inl (TypeError "float() argument must be a string or a number")
  end.

Definition ex_TYPE_MAP : dict string (pyval -> exn + pyval) :=
  [("float", ex_float)].

Definition ex_energy : PropertyDefinition :=
  {| name := "energy"; title := "Energy"; description := "Total energy";
     unit_ := Some "eV"; type := "float" |}.

(** The property table: a row keyed by a file-name stem, with a column that
    no definition declares. *)
Definition ex_table : rows :=
  [(VStr "foo", [("energy", VStr "3.5"); ("extra", VStr "x")])].

Definition ex_read_table : property_parser string := fun _ _ => inr ex_table.

Definition ex_PROPERTY_PARSERS : dict string (list (property_parser string)) :=
  [(".csv", [ex_read_table])].

Definition ex_entry (label : string) : Entry :=
  {| e_id := VNone; e_attributes := [("label", VStr label)]; e_rest := [] |}.

Definition ex_entries : dict string Entry :=
  [("structures/foo.cif", ex_entry "foo"); ("structures/bar.cif", ex_entry "bar")].

Definition ex_property_matches : matches_dict string :=
  [(Some "properties.zip", ["table.csv"])].

Definition ex_assign (optimade_entries : dict string Entry)
           (property_matches_by_file : matches_dict string)
           (property_definitions : list PropertyDefinition)
  : M (event string) (dict string Entry) :=
  _parse_and_assign_properties ex_suffix ex_PROPERTY_PARSERS ex_TYPE_MAP
    optimade_entries property_matches_by_file property_definitions "p".

Definition ex_construct (converters : list (converter string))
           (entry_config : EntryConfig)
  : M (event string) (dict string Entry) :=
  construct_entries ex_glob ex_joinpath ex_exists ex_relative_to ex_suffix
    ex_truthy ex_ENTRY_PARSERS ex_PROPERTY_PARSERS
    [("structures", converters); ("references", converters)] ex_TYPE_MAP
    entry_config "p".

Definition ex_two_structures : EntryConfig :=
  {| entry_type := "structures";
     entry_paths := [{| file := Some "structures.zip"; matches := ["*.cif"] |}];
     property_paths := [];
     property_definitions := [] |}.

Definition ex_missing_property_files : EntryConfig :=
  {| entry_type := "structures";
     entry_paths := [{| file := Some "structures.zip"; matches := ["a.cif"] |}];
     property_paths :=
       [{| file := Some "properties.zip"; matches := ["*.nonexistent"] |}];
     property_definitions := [ex_energy] |}.

Definition ex_missing_entry_files : EntryConfig :=
  {| entry_type := "structures";
     entry_paths :=
       [{| file := Some "structures.zip"; matches := ["*.nonexistent"] |}];
     property_paths := [];
     property_definitions := [] |}.

Definition ex_derived_ids : list string :=
  ["structures.zip/a.cif"; "structures.zip/b.cif"].

Definition ex_silicon : Entry :=
  {| e_id := VStr "Si"; e_attributes := []; e_rest := [] |}.

(** The entries after assignment from the property table. *)
Definition ex_assigned : dict string Entry :=
  [("structures/foo.cif",
    {| e_id := VNone;
       e_attributes := [("label", VStr "foo"); ("_p_energy", VFloat (7 # 2))];
       e_rest := [] |});
   ("structures/bar.cif",
    {| e_id := VNone;
       e_attributes := [("label", VStr "bar"); ("_p_energy", VNone)];
       e_rest := [] |})].

(** A property table keyed by full entry identifiers. *)
Definition ex_table_by_id : rows :=
  [(VStr "structures/foo.cif", [("energy", VStr "1.5")])].

Definition ex_def_dict : dict string PropertyDefinition :=
  [("energy", ex_energy)].

(** A table whose row for the file-name stem holds a zero. *)
Definition ex_table_zero : rows :=
  [(VStr "foo", [("count", VInt 0)])].

(** A table keyed by an identifier that is its own file-name stem. *)
Definition ex_table_poscar : rows :=
  [(VStr "POSCAR", [("count", VInt 0)])].

Definition ex_count : PropertyDefinition :=
  {| name := "count"; title := "Count"; description := "Number of sites";
     unit_ := None; type := "integer" |}.

(** A property table whose values are there and falsy: a zero energy, and
    an empty string where an energy should be. *)
Definition ex_table_falsy : rows :=
  [(VStr "foo", [("energy", VFloat 0)]); (VStr "bar", [("energy", VStr "")])].

Definition ex_read_falsy : property_parser string :=
  fun _ _ => inr ex_table_falsy.

(** The serializer's collaborators: no built-in schema, a resource that is
    the info itself and prints as its description, an encoder that prints
    an entry's identifier. *)
Definition ex_dumps (e : Entry) : exn + string :=
  match e_id e with
  | VStr s => inr s
  | _ => inl (TypeError "Object is not JSON serializable")
  end.

(** Files under the directory readonly cannot be opened for writing. *)
Definition ex_open_error (p : string) : option exn :=
  if String.prefix "readonly/" p then Some (OSError "Permission denied")
  else None.

Definition ex_write (optimade_entries : dict string (list Entry))
           (property_definitions : dict string (list PropertyDefinition))
           (jsonl_path : option string) (fs : FS string)
  : FS string * (exn + string) :=
  write_optimade_jsonl ex_joinpath (fun _ => [])
    (fun info : EntryInfo => inr info) info_description ex_dumps
    string_dec ex_open_error optimade_entries property_definitions "p"
    jsonl_path fs.

(** A disk that already holds an output file, and an empty one. *)
Definition ex_disk : FS string :=
  fun p => if String.eqb p "optimade.jsonl" then Some "previous build" else None.

Definition ex_empty_disk : FS string := fun _ => None.

Definition ex_records : dict string (list Entry) :=
  [("structures",
    [set_id ex_silicon (VStr "structures.zip/a.cif");
     set_id ex_silicon (VStr "structures.zip/b.cif")]);
   ("references", [])].

Definition ex_definitions : dict string (list PropertyDefinition) :=
  [("structures", [ex_energy]); ("references", [])].

(** ** The claims on the small archive *)

(** C2.  Two structure files whose converter supplies the same identifier:
    [construct_entries] raises nothing, and its result holds two records
    with the identifier Si, under two different derived keys. *)
Theorem converter_supplied_identifiers_are_not_checked :
  outcome (ex_construct [ex_labelled] ex_two_structures)
  = inr [("structures.zip/a.cif", ex_silicon);
         ("structures.zip/b.cif", ex_silicon)]
  /\ map (fun kv => e_id (snd kv))
         [("structures.zip/a.cif", ex_silicon);
          ("structures.zip/b.cif", ex_silicon)]
     = [VStr "Si"; VStr "Si"].
Proof. split; reflexivity. Qed.

(** C4.  A property table whose rows hold a zero energy for foo and an empty
    string for bar, with energy declared as float: both values are present
    (not None), the cast of the zero returns 0.0 and the cast of the empty
    string raises; yet assignment returns, and both entries are assigned
    None: neither value reached the cast. *)
Theorem present_falsy_values_are_assigned_None_uncast :
  lookup ex_table_falsy (VStr "foo") "energy" = VFloat 0
  /\ lookup ex_table_falsy (VStr "bar") "energy" = VStr ""
  /\ dict_get String.eqb ex_TYPE_MAP (type ex_energy) = Some ex_float
  /\ ex_float (VFloat 0) = inr (VFloat 0)
  /\ ex_float (VStr "")
     = inl (ValueError "could not convert string to float")
  /\ outcome (_parse_and_assign_properties
                ex_suffix [(".csv", [ex_read_falsy])] ex_TYPE_MAP
                ex_entries ex_property_matches [ex_energy] "p")
     = inr [("structures/foo.cif",
             {| e_id := VNone;
                e_attributes := [("label", VStr "foo"); ("_p_energy", VNone)];
                e_rest := [] |});
            ("structures/bar.cif",
             {| e_id := VNone;
                e_attributes := [("label", VStr "bar"); ("_p_energy", VNone)];
                e_rest := [] |})].
Proof. repeat split. Qed.

Lemma existing_output_witness :
  ex_write ex_records ex_definitions None ex_disk
  = (ex_disk, inl (RuntimeError NotOverwriting))
  /\ fst (ex_write ex_records ex_definitions None ex_disk)
         (target ex_joinpath None) = Some "previous build".
Proof.
  apply (@existing_output_is_left_untouched
           string ex_joinpath EntryInfo (fun _ => [])
           (fun info : EntryInfo => inr info) info_description ex_dumps
           string_dec ex_open_error ex_records ex_definitions "p" None ex_disk
           "previous build").
  reflexivity.
Defined.

Lemma jsonl_line_order_witness :
  exists infos records : list string,
    Forall2 (fun kv line =>
               exists r, _construct_entry_type_info
                           (fun _ => []) (fun info : EntryInfo => inr info)
                           (fst kv) (snd kv) "p" = inr r
                         /\ line = info_description r)
            ex_definitions infos
    /\ Forall2 (fun e line => ex_dumps (stripped e) = inr line)
               (all_records ex_records) records
    /\ "optimade.jsonl" = target ex_joinpath None
    /\ fst (ex_write ex_records ex_definitions None ex_empty_disk)
           "optimade.jsonl"
       = Some (file_text (header_json :: infos ++ records))
    /\ length (header_json :: infos ++ records)
       = 1 + length ex_definitions
         + list_sum (map (fun kv => length (snd kv)) ex_records).
Proof.
  apply (@jsonl_line_order
           string ex_joinpath EntryInfo (fun _ => [])
           (fun info : EntryInfo => inr info) info_description ex_dumps
           string_dec ex_open_error ex_records ex_definitions "p" None ex_empty_disk).
  reflexivity.
Defined.

Lemma entry_identifiers_witness :
  exists path_in_archive doc root,
    ex_relative_to "lit/refs.bib" = inr path_in_archive
    /\ parsed_by ex_truthy ex_ENTRY_PARSERS "references" "lit/refs.bib" doc
    /\ (1 < 2 -> root = (str_of_file (Some "refs.zip") ++ "/"
                         ++ path_in_archive)%string)
    /\ (2 = 1 -> root = str_of_file (Some "refs.zip"))
    /\ ["knuth1984"; "lamport1994"]
       = fst (@nil string, @nil string) ++ docs_of doc
    /\ (forall d, doc = One d ->
        ["refs.zip/lit/refs.bib/0"; "refs.zip/lit/refs.bib/1"]
        = snd (@nil string, @nil string) ++ [root])
    /\ (forall ds, doc = Many ds ->
        ["refs.zip/lit/refs.bib/0"; "refs.zip/lit/refs.bib/1"]
        = snd (@nil string, @nil string)
          ++ map (fun ind => (root ++ "/" ++ str_of_nat ind)%string)
                 (seq 0 (length ds))).
Proof.
  apply (proj1 (entry_identifiers_are_derived_from_paths
                  ex_relative_to ex_truthy ex_ENTRY_PARSERS "references")
               (Some "refs.zip") 2 (@nil string, @nil string) "lit/refs.bib"
               ["knuth1984"; "lamport1994"]
               ["refs.zip/lit/refs.bib/0"; "refs.zip/lit/refs.bib/1"]).
  reflexivity.
Defined.

Lemma only_declared_properties_witness :
  Forall2 (changes_only_declared [ex_energy] "p") ex_entries ex_assigned.
Proof.
  apply (@only_declared_properties_are_assigned
           string ex_suffix ex_PROPERTY_PARSERS ex_TYPE_MAP ex_entries
           ex_property_matches [ex_energy] "p" ex_assigned).
  reflexivity.
Defined.

(** C1 as stated fails: an entry type with a declared property and no
    property files keeps its entries as they are, without the key. *)
Lemma no_property_files_no_property_keys :
  ~ rectangular_over_declared ex_suffix ex_PROPERTY_PARSERS ex_TYPE_MAP
      ex_entries [] [ex_energy] "p"
  /\ outcome (ex_assign ex_entries [] [ex_energy]) = inr ex_entries
  /\ dict_mem String.eqb (e_attributes (ex_entry "foo")) (prefixed "p" "energy")
     = false.
Proof.
  split; [| split; reflexivity].
  intros H.
  specialize (H ltac:(discriminate) ex_entries eq_refl
                "structures/foo.cif" (ex_entry "foo") ex_energy
                ltac:(now left) ltac:(now left)).
  discriminate H.
Qed.

Lemma declared_properties_witness :
  exists v,
    dict_get String.eqb
             [("label", VStr "bar"); ("_p_energy", VNone)]
             (prefixed "p" (name ex_energy)) = Some v.
Proof.
  apply (proj2 (declared_properties_found_in_files_are_on_every_entry
                  ex_suffix ex_PROPERTY_PARSERS ex_TYPE_MAP)
               ex_entries ex_property_matches [ex_energy] "p" ex_assigned
               (ex_table, ["energy"; "extra"])
               ltac:(discriminate) eq_refl eq_refl
               "structures/bar.cif"
               {| e_id := VNone;
                  e_attributes := [("label", VStr "bar"); ("_p_energy", VNone)];
                  e_rest := [] |}
               ex_energy (VStr "foo")
               [("energy", VStr "3.5"); ("extra", VStr "x")]).
  - right. now left.
  - now left.
  - now left.
  - now left.
Defined.

(** C3 as stated fails: the entry has no [immutable_id], its file-name stem
    foo is no key of the table, and yet it is assigned the value of the row
    keyed by its full identifier. *)
Lemma full_identifier_row_is_assigned :
  ~ unmatched_entry_gets_None string ex_TYPE_MAP ex_table_by_id ["energy"]
      ex_def_dict "p" ("structures/foo.cif", ex_entry "foo")
  /\ outcome (assign_entry string ex_TYPE_MAP ex_table_by_id ["energy"]
                           ex_def_dict "p"
                           ("structures/foo.cif", ex_entry "foo"))
     = inr ("structures/foo.cif",
            set_attributes (ex_entry "foo")
              [("label", VStr "foo"); ("_p_energy", VFloat (3 # 2))]).
Proof.
  split; [| reflexivity].
  intros H.
  specialize (H ltac:(intros v; discriminate) eq_refl _ eq_refl
                "energy" ex_energy ltac:(now left) eq_refl).
  discriminate H.
Qed.

Lemma reconciliation_witness :
  exists v,
    cast_value ex_TYPE_MAP ex_energy
      (lookup ex_table
         (property_entry_id_of "structures/foo.cif"
                               (e_attributes (ex_entry "foo")))
         "energy") = inr v
    /\ dict_get String.eqb
                [("label", VStr "foo"); ("_p_energy", VFloat (7 # 2))]
                (prefixed "p" "energy") = Some v.
Proof.
  pose proof (reconciliation_tries_first_key_then_full_identifier
                string ex_TYPE_MAP) as (_ & _ & _ & H & _).
  apply (H ex_table ["energy"; "extra"] ex_def_dict "p"
           ("structures/foo.cif", ex_entry "foo")
           ("structures/foo.cif",
            set_attributes (ex_entry "foo")
              [("label", VStr "foo"); ("_p_energy", VFloat (7 # 2))])
           "energy" ex_energy).
  - reflexivity.
  - now left.
  - reflexivity.
  - reflexivity.
Defined.

Lemma cast_witness :
  outcome (assign_property string ex_TYPE_MAP ex_table ex_def_dict "p"
                           "structures/foo.cif" (VStr "foo") [] "energy")
  = inr [("_p_energy", VFloat (7 # 2))].
Proof.
  apply (proj1 (@present_values_are_cast_before_assignment
                  string ex_TYPE_MAP ex_table ex_def_dict "p"
                  "structures/foo.cif" (VStr "foo") [] "energy"
                  ex_energy ex_float eq_refl eq_refl eq_refl)).
  reflexivity.
Defined.

(** C9 as stated fails: the identifier POSCAR is its own file-name stem, the
    row under it holds the count 0, and 0 is what the entry is assigned. *)
Lemma falsy_value_is_assigned_when_stem_is_identifier :
  ~ falsy_first_key_value_is_never_assigned
      ex_table_poscar ("POSCAR", ex_entry "POSCAR") "count"
  /\ property_entry_id_of "POSCAR" (e_attributes (ex_entry "POSCAR"))
     = VStr "POSCAR"
  /\ outcome (assign_entry string ex_TYPE_MAP ex_table_poscar ["count"]
                           [("count", ex_count)] "p"
                           ("POSCAR", ex_entry "POSCAR"))
     = inr ("POSCAR",
            set_attributes (ex_entry "POSCAR")
              [("label", VStr "POSCAR"); ("_p_count", VInt 0)]).
Proof.
  split; [| split; reflexivity].
  intros H. apply (H eq_refl eq_refl). reflexivity.
Qed.

Lemma falsy_value_witness :
  lookup ex_table_zero (VStr "foo") "count" = VInt 0
  /\ lookup_value ex_table_zero (VStr "foo") "structures/foo.cif" "count"
     = VNone.
Proof.
  split; [reflexivity |].
  apply (falsy_value_falls_through_to_full_identifier
           string ex_TYPE_MAP ex_table_zero ex_def_dict "p"
           "structures/foo.cif" (VStr "foo") [] "count" eq_refl).
  reflexivity.
Defined.

(** C8 as stated fails: the pattern without matches is among the property
    paths, and the not-found error comes after the entry file was parsed. *)
Lemma property_wildcard_fails_after_entry_parsing :
  ~ fails_before_any_parsing ex_glob ex_joinpath ex_exists ex_relative_to
      ex_suffix ex_truthy ex_ENTRY_PARSERS ex_PROPERTY_PARSERS
      [("structures", [ex_plain]); ("references", [ex_plain])] ex_TYPE_MAP
      ex_missing_property_files "p"
  /\ ex_construct [ex_plain] ex_missing_property_files
     = ([ParseEntry "a.cif"],
        inl (FileNotFoundError (WildcardNoMatch "*.nonexistent"))).
Proof.
  split; [| reflexivity].
  intros H. destruct H as [m Hm].
  - right. exists {| file := Some "properties.zip";
                     matches := ["*.nonexistent"] |}, "*.nonexistent".
    repeat split; now left.
  - discriminate Hm.
Qed.

Lemma unmatched_wildcard_witness :
  exists m,
    contains_star m = true /\ ex_glob m = []
    /\ ex_construct [ex_plain] ex_missing_entry_files
       = ([], inl (FileNotFoundError (WildcardNoMatch m))).
Proof.
  pose proof (unmatched_wildcard_raises_not_found
                ex_glob ex_joinpath ex_exists ex_relative_to ex_suffix
                ex_truthy ex_ENTRY_PARSERS ex_PROPERTY_PARSERS
                [("structures", [ex_plain]); ("references", [ex_plain])]
                ex_TYPE_MAP) as (_ & H & _).
  apply (H ex_missing_entry_files "p").
  - split; discriminate.
  - constructor; [intros E; discriminate E | constructor].
  - exists {| file := Some "structures.zip"; matches := ["*.nonexistent"] |},
           "*.nonexistent".
    repeat split; now left.
Defined.

(** ** Further properties on the small archive *)

Definition ex_paths : list ParsedFiles :=
  [{| file := Some "structures.zip"; matches := ["*.cif"] |};
   {| file := Some "structures.zip"; matches := ["extra/c.cif"] |};
   {| file := Some "single.cif"; matches := [] |}].

Definition ex_matched : matches_dict string :=
  [(Some "structures.zip", ["a.cif"; "b.cif"; "extra/c.cif"]);
   (Some "single.cif", ["single.cif"])].

(** A disk on which one of the configured files is missing. *)
Definition ex_exists_but_one (p : string) : bool :=
  negb (String.eqb p "missing.cif").

Definition ex_missing_literal : EntryConfig :=
  {| entry_type := "structures";
     entry_paths :=
       [{| file := Some "structures.zip";
           matches := ["a.cif"; "missing.cif"] |}];
     property_paths := [];
     property_definitions := [] |}.

Definition ex_CONVERTERS : dict string (list (converter string)) :=
  [("structures", [ex_plain]); ("references", [ex_plain])].

(** Converters that supply the document's label as identifier. *)
Definition ex_LABELLING : dict string (list (converter string)) :=
  [("structures", [ex_labelled]); ("references", [ex_labelled])].

(** A parser that refuses every file. *)
Definition ex_refuse : entry_parser string string :=
  fun _ => inl (ValueError "not a structure").

Definition ex_references : matches_dict string :=
  [(Some "refs.zip", ["lit/refs.bib"])].

Definition ex_constructed : dict string Entry :=
  [("structures.zip/a.cif",
    {| e_id := VStr "structures.zip/a.cif";
       e_attributes := [("label", VStr "Si")]; e_rest := [] |});
   ("structures.zip/b.cif",
    {| e_id := VStr "structures.zip/b.cif";
       e_attributes := [("label", VStr "Si")]; e_rest := [] |})].

(** A property parser that finds a header and no rows in table.csv, and the
    usual table in every other file. *)
Definition ex_read_empty_table : property_parser string :=
  fun _path _ => if String.eqb _path "table.csv" then inr [] else inr ex_table.

(** A property parser that raises on table.csv. *)
Definition ex_refuse_table : property_parser string :=
  fun _path _ =>
    if String.eqb _path "table.csv" then inl (ValueError "not a table")
    else inr ex_table.

Definition ex_TWO_READERS : dict string (list (property_parser string)) :=
  [(".csv", [ex_refuse_table; ex_read_empty_table])].

(** A property table that carries exactly the declared property. *)
Definition ex_read_exact_table : property_parser string :=
  fun _ _ => inr [(VStr "foo", [("energy", VStr "3.5")])].

Definition ex_volume : PropertyDefinition :=
  {| name := "volume"; title := "Volume"; description := "Cell volume";
     unit_ := None; type := "float" |}.

Definition ex_builtin (entry_type : string) : dict string (dict string pyval) :=
  [("nsites", [("type", VStr "integer")])].

(** Records of which the second has no identifier the encoder accepts. *)
Definition ex_records_bad : dict string (list Entry) :=
  [("structures",
    [set_id ex_silicon (VStr "structures.zip/a.cif");
     set_id ex_silicon VNone])].

Definition ex_disk_with_notes : FS string :=
  fun p => if String.eqb p "notes.txt" then Some "keep me" else None.

Definition ex_refs_config : EntryConfig :=
  {| entry_type := "references";
     entry_paths := [{| file := Some "refs.zip"; matches := ["lit/refs.bib"] |}];
     property_paths := [];
     property_definitions := [] |}.

Definition ex_more_structures : EntryConfig :=
  {| entry_type := "structures";
     entry_paths := [{| file := Some "more.zip"; matches := ["d.cif"] |}];
     property_paths := [];
     property_definitions := [ex_energy] |}.

Definition ex_config : list EntryConfig :=
  [ex_two_structures; ex_refs_config; ex_more_structures].

Definition ex_collect (entries : list EntryConfig)
  : M (event string) (dict string (list Entry)) :=
  collect_entries ex_glob ex_joinpath ex_exists ex_relative_to ex_suffix
    ex_truthy ex_ENTRY_PARSERS ex_PROPERTY_PARSERS ex_CONVERTERS ex_TYPE_MAP
    "p" entries.

Definition ex_collected : dict string (list Entry) :=
  match outcome (ex_collect ex_config) with
  | inr d => d
  | inl _ => []
  end.

Lemma get_matches_witness :
  (forall k, matched_under ex_matched k
             = flat_map (expansion ex_glob ex_joinpath) (under k ex_paths))
  /\ (forall k, dict_mem opt_eqb ex_matched k = true
                <-> exists path, In path ex_paths /\ file path = k)
  /\ NoDup (dict_keys ex_matched).
Proof.
  apply (@get_matches_groups_paths_by_file
           string ex_glob ex_joinpath ex_paths ex_matched []).
  reflexivity.
Defined.

Lemma missing_files_witness :
  construct_entries ex_glob ex_joinpath ex_exists_but_one ex_relative_to
    ex_suffix ex_truthy ex_ENTRY_PARSERS ex_PROPERTY_PARSERS ex_CONVERTERS
    ex_TYPE_MAP ex_missing_literal "p"
  = ([], inl (FileNotFoundError MissingFiles)).
Proof.
  pose proof (missing_files_are_reported_before_parsing
                ex_glob ex_joinpath ex_exists_but_one ex_relative_to ex_suffix
                ex_truthy ex_ENTRY_PARSERS ex_PROPERTY_PARSERS ex_CONVERTERS
                ex_TYPE_MAP) as (_ & _ & H).
  apply (H ex_missing_literal "p"
           [(Some "structures.zip", ["a.cif"; "missing.cif"])]
           (Some "structures.zip") ["a.cif"; "missing.cif"] "missing.cif").
  - split; discriminate.
  - reflexivity.
  - now left.
  - right. now left.
  - reflexivity.
Defined.

Lemma parser_failover_witness :
  try_parsers ex_truthy ([ex_refuse] ++ ex_read_structure
                                     :: [ex_read_bibliography]) "a.cif"
  = (repeat (ParseEntry "a.cif") 2, inr (Some (One "Si"))).
Proof.
  pose proof (first_successful_parser_wins
                ex_relative_to ex_truthy ex_ENTRY_PARSERS) as (H & _).
  apply (H [ex_refuse] ex_read_structure [ex_read_bibliography] "a.cif"
           (One "Si")).
  - intros q [<- | []]. exact I.
  - reflexivity.
  - reflexivity.
Defined.

Lemma alignment_witness :
  length ["knuth1984"; "lamport1994"]
  = length ["refs.zip/0"; "refs.zip/1"]
  /\ length (combine ["refs.zip/0"; "refs.zip/1"]
                     ["knuth1984"; "lamport1994"])
     = length ["knuth1984"; "lamport1994"].
Proof.
  apply (@parsed_entries_and_ids_align
           string string ex_relative_to ex_truthy ex_ENTRY_PARSERS
           ex_references "references").
  reflexivity.
Defined.

Lemma construct_keys_witness :
  exists entry_matches_by_file docs ids,
    outcome (_get_matches ex_glob ex_joinpath (entry_paths ex_two_structures))
    = inr entry_matches_by_file
    /\ outcome (_parse_entries ex_relative_to ex_truthy ex_ENTRY_PARSERS
                               entry_matches_by_file
                               (entry_type ex_two_structures))
       = inr (docs, ids)
    /\ dict_keys ex_constructed = ids
    /\ length ex_constructed = length docs
    /\ NoDup ids.
Proof.
  apply (@construct_entries_keys_are_the_derived_identifiers
           string string ex_glob ex_joinpath ex_exists ex_relative_to ex_suffix
           ex_truthy ex_ENTRY_PARSERS ex_PROPERTY_PARSERS ex_CONVERTERS
           ex_TYPE_MAP ex_two_structures "p" ex_constructed).
  reflexivity.
Defined.

Lemma record_identifier_witness :
  exists entry_matches_by_file docs ids converters doc entry,
    outcome (_get_matches ex_glob ex_joinpath (entry_paths ex_two_structures))
    = inr entry_matches_by_file
    /\ outcome (_parse_entries ex_relative_to ex_truthy ex_ENTRY_PARSERS
                               entry_matches_by_file
                               (entry_type ex_two_structures))
       = inr (docs, ids)
    /\ In ("structures.zip/a.cif", doc) (combine ids docs)
    /\ dict_get String.eqb ex_LABELLING (entry_type ex_two_structures)
       = Some converters
    /\ outcome (try_converters string converters "structures.zip/a.cif" doc
                               (property_definitions ex_two_structures))
       = inr (Some entry)
    /\ (truthy (e_id entry) = true -> e_id ex_silicon = e_id entry)
    /\ (truthy (e_id entry) = false ->
        e_id ex_silicon = VStr "structures.zip/a.cif").
Proof.
  apply (@record_identifier_is_supplied_or_derived
           string string ex_glob ex_joinpath ex_exists ex_relative_to ex_suffix
           ex_truthy ex_ENTRY_PARSERS ex_PROPERTY_PARSERS ex_LABELLING
           ex_TYPE_MAP ex_two_structures "p"
           [("structures.zip/a.cif", ex_silicon);
            ("structures.zip/b.cif", ex_silicon)]
           eq_refl "structures.zip/a.cif" ex_silicon).
  now left.
Defined.

Lemma repeated_identifier_witness :
  outcome (foldM (construct_entry string [ex_plain] [])
                 [] ([("structures.zip", "Si")]
                       ++ ("structures.zip", "Ge") :: []))
  = inl (RuntimeError (DuplicateEntryId "structures.zip")).
Proof.
  apply (@repeated_derived_identifier_raises string string).
  - constructor; [intros [] | constructor].
  - now left.
  - intros ie _. eexists. reflexivity.
Defined.

Lemma update_witness :
  lookup (fst (merge_row
                 ([(VStr "foo", [("energy", VStr "1.0"); ("volume", VInt 3)])],
                  ["energy"; "volume"])
                 (VStr "foo", [("energy", VStr "2.0")])))
         (VStr "foo") "energy" = VStr "2.0"
  /\ lookup (fst (merge_row
                    ([(VStr "foo",
                       [("energy", VStr "1.0"); ("volume", VInt 3)])],
                     ["energy"; "volume"])
                    (VStr "foo", [("energy", VStr "2.0")])))
            (VStr "foo") "volume"
     = lookup [(VStr "foo", [("energy", VStr "1.0"); ("volume", VInt 3)])]
              (VStr "foo") "volume".
Proof.
  split.
  - apply (proj2 (proj2 (later_rows_update_earlier_ones
                           ([(VStr "foo",
                              [("energy", VStr "1.0"); ("volume", VInt 3)])],
                            ["energy"; "volume"])
                           (VStr "foo") (VStr "foo")
                           [("energy", VStr "2.0")] "energy"))).
    + reflexivity.
    + constructor; [intros [] | constructor].
    + now left.
  - apply (proj1 (proj2 (later_rows_update_earlier_ones
                           ([(VStr "foo",
                              [("energy", VStr "1.0"); ("volume", VInt 3)])],
                            ["energy"; "volume"])
                           (VStr "foo") (VStr "foo")
                           [("energy", VStr "2.0")] "volume"))).
    + reflexivity.
    + intros [H | []]. discriminate H.
Defined.

Lemma empty_table_witness :
  exists e,
    outcome (_parse_and_assign_properties
               ex_suffix ex_TWO_READERS ex_TYPE_MAP
               ex_entries ex_property_matches [ex_energy] "p") = inl e
    /\ (forall st,
           outcome (parse_properties ex_suffix ex_TWO_READERS
                                     ex_property_matches [ex_energy]) = inr st ->
           e = RuntimeError NoPropertiesParsed).
Proof.
  apply (@property_files_without_rows_are_an_error
           string ex_suffix ex_TWO_READERS ex_TYPE_MAP
           ex_entries ex_property_matches [ex_energy] "p").
  - discriminate.
  - intros k l _path before parser after properties Hkl Hpath Hreg _ Hp.
    destruct Hkl as [[= <- <-] | []]. destruct Hpath as [<- | []].
    cbn in Hreg. injection Hreg as Hreg.
    destruct before as [| q [| q' before]].
    + injection Hreg as <- _. discriminate Hp.
    + injection Hreg as _ <- _. now injection Hp as <-.
    + injection Hreg as _ _ Hreg. now destruct before.
Defined.

Lemma quiet_coverage_witness :
  exists v,
    dict_get String.eqb
             [("label", VStr "bar"); ("_p_energy", VNone)]
             (prefixed "p" (name ex_energy)) = Some v.
Proof.
  apply (@no_coverage_warning_means_every_declared_key
           string ex_suffix [(".csv", [ex_read_exact_table])] ex_TYPE_MAP
           ex_entries ex_property_matches [ex_energy] "p"
           [ParseProperty "table.csv"] ex_assigned
           ltac:(discriminate) eq_refl)
    with (id := "structures/bar.cif")
         (e := {| e_id := VNone;
                  e_attributes := [("label", VStr "bar"); ("_p_energy", VNone)];
                  e_rest := [] |}).
  - intros found expected [H | []]. discriminate H.
  - right. now left.
  - now left.
Defined.

Lemma serializer_frame_witness :
  fst (ex_write ex_records ex_definitions None ex_disk_with_notes) "notes.txt"
  = ex_disk_with_notes "notes.txt"
  /\ (forall p,
         snd (ex_write ex_records ex_definitions None ex_disk_with_notes)
         = inr p -> p = target ex_joinpath None).
Proof.
  apply (@serializer_touches_only_the_target
           string ex_joinpath EntryInfo (fun _ => [])
           (fun info : EntryInfo => inr info) info_description ex_dumps
           string_dec ex_open_error ex_records ex_definitions "p" None ex_disk_with_notes
           "notes.txt").
  discriminate.
Defined.

Lemma partial_file_witness :
  exists lines,
    fst (ex_write ex_records_bad ex_definitions None ex_empty_disk)
        (target ex_joinpath None)
    = Some (file_text (header_json :: lines))
    /\ ex_write ex_records_bad ex_definitions None
                (fst (ex_write ex_records_bad ex_definitions None
                               ex_empty_disk))
       = (fst (ex_write ex_records_bad ex_definitions None ex_empty_disk),
          inl (RuntimeError NotOverwriting)).
Proof.
  apply (proj2 (@failed_serialisation_leaves_a_file_behind
                  string ex_joinpath EntryInfo (fun _ => [])
                  (fun info : EntryInfo => inr info) info_description
                  ex_dumps string_dec ex_open_error ex_records_bad
                  ex_definitions "p" None ex_empty_disk eq_refl)).
  reflexivity.
Defined.

Lemma entry_info_witness :
  _construct_entry_type_info ex_builtin (fun info : EntryInfo => inr info)
                             "structures" [ex_energy; ex_volume] "p"
  = inr (entry_type_info ex_builtin "structures" [ex_energy; ex_volume] "p")
  /\ exists builtin,
      dict_keys (properties (entry_type_info ex_builtin "structures"
                                             [ex_energy; ex_volume] "p"))
      = map (fun p => prefixed "p" (name p)) [ex_energy; ex_volume] ++ builtin
      /\ (forall k,
             In k builtin
             <-> In k (dict_keys (ex_builtin "structures"))
                 /\ ~ In k (map (fun p => prefixed "p" (name p))
                                [ex_energy; ex_volume]))
      /\ dict_get String.eqb
                  (output_fields_by_format
                     (entry_type_info ex_builtin "structures"
                                      [ex_energy; ex_volume] "p")) "json"
         = Some (dict_keys (properties
                              (entry_type_info ex_builtin "structures"
                                               [ex_energy; ex_volume] "p")))
      /\ (forall p,
             In p [ex_energy; ex_volume] ->
             ~ In (prefixed "p" (name p))
                  (dict_keys (ex_builtin "structures")) ->
             dict_get String.eqb
                      (properties (entry_type_info ex_builtin "structures"
                                     [ex_energy; ex_volume] "p"))
                      (prefixed "p" (name p))
             = Some (property_info p)).
Proof.
  apply (@entry_info_lists_declared_fields_first
           EntryInfo ex_builtin (fun info : EntryInfo => inr info)
           "structures" [ex_energy; ex_volume] "p").
  constructor; [intros [H | []]; discriminate H |].
  constructor; [intros [] | constructor].
Defined.

Lemma grouping_witness :
  dict_keys ex_collected = first_appearances (map entry_type ex_config)
  /\ first_appearances (map entry_type ex_config)
     = ["structures"; "references"]
  /\ dict_keys ex_collected
     = dict_keys (collect_property_definitions ex_config)
  /\ NoDup (dict_keys ex_collected)
  /\ length (listed ex_collected "structures") = 3.
Proof.
  destruct (@convert_archive_groups_by_entry_type
              string string ex_glob ex_joinpath ex_exists ex_relative_to
              ex_suffix ex_truthy ex_ENTRY_PARSERS ex_PROPERTY_PARSERS
              ex_CONVERTERS ex_TYPE_MAP "p" ex_config ex_collected eq_refl)
    as (Horder & Hkeys & Hnodup & _).
  split; [exact Horder |]. split; [reflexivity |]. split; [exact Hkeys |].
  split; [exact Hnodup | reflexivity].
Defined.
